(** * HeteroFL baseline: client model rates and centralized evaluation

    A shallow embedding of the two pieces of the baseline that carry logic:

    - [utils.Model_rate_manager] (utils.py), which maps every simulated
      client to a model rate, in "fix" or in "dynamic" mode;
    - [server.evaluate] (server.py), the closure returned by
      [gen_evaluate_fn], which loads the aggregated parameters into the
      global model, saves it every hundredth round, refreshes the running
      statistics and tests the model globally and per client.

    Python values are embedded as follows: [int] is [Z] (unbounded, with
    floor division and modulo as [Z.div] and [Z.modulo], which round the
    same way), [str] is [string], [list] is [list], a [dict] with string
    keys is a [gmap string] where only lookups matter and an insertion
    ordered association list where the order is visible, and an exception
    is an outcome [Raise e] of a state-and-exception monad. *)

From Stdlib Require Import ZArith QArith_base List String Ascii Bool Lia.
From stdpp Require Import base gmap strings list pretty.

Local Open Scope Z_scope.

(** ** Python primitives used by the two files *)

Module Py.

Inductive exn : Set :=
| IndexError
| KeyError
| ValueError
| ZeroDivisionError
| RuntimeError.

Inductive outcome (A : Type) : Type :=
| Return (a : A)
| Raise (e : exn).

Arguments Return {A} a.
Arguments Raise {A} e.

(** Computations over a mutable store [S] that may raise.  The store is
    kept when an exception is raised: what was written before stays
    written. *)
Definition M (S A : Type) : Type := S -> outcome A * S.

Definition ret {S A : Type} (a : A) : M S A := fun s => (Return a, s).

Definition raise {S A : Type} (e : exn) : M S A := fun s => (Raise e, s).

Definition bind {S A B : Type} (m : M S A) (k : A -> M S B) : M S B :=
  fun s =>
    match m s with
    | (Return a, s') => k a s'
    | (Raise e, s') => (Raise e, s')
    end.

Definition gets {S A : Type} (f : S -> A) : M S A := fun s => (Return (f s), s).

Definition modify {S : Type} (f : S -> S) : M S unit := fun s => (Return tt, f s).

(** A computation that does not touch the store. *)
Definition lift {S A : Type} (o : outcome A) : M S A := fun s => (o, s).

Definition obind {A B : Type} (o : outcome A) (k : A -> outcome B) : outcome B :=
  match o with
  | Return a => k a
  | Raise e => Raise e
  end.

Declare Scope py_scope.
Delimit Scope py_scope with py.

Notation "x <- m ;; k" := (bind m (fun x => k))
  (at level 100, m at next level, right associativity) : py_scope.
Notation "m ;;; k" := (bind m (fun _ => k))
  (at level 100, right associativity) : py_scope.

(** [s.split(sep)] for a one-character separator: never the empty list. *)
Fixpoint str_split (sep : ascii) (s : string) : list string :=
  match s with
  | EmptyString => [EmptyString]
  | String c rest =>
      if Ascii.eqb c sep then EmptyString :: str_split sep rest
      else match str_split sep rest with
           | head :: others => String c head :: others
           | [] => [String c EmptyString]
           end
  end.

(** [s[0]]: the first character as a string, [IndexError] on [""]. *)
Definition getitem0 (s : string) : outcome string :=
  match s with
  | EmptyString => Raise IndexError
  | String c _ => Return (String c EmptyString)
  end.

(** [s[1:]]: never raises. *)
Definition slice_from1 (s : string) : string :=
  match s with
  | EmptyString => EmptyString
  | String _ rest => rest
  end.

(** The white space [int] skips around the digits of an ASCII string: tab,
    line feed, vertical tab, form feed, carriage return and space. *)
Definition is_space (c : ascii) : bool :=
  let n := nat_of_ascii c in
  ((9 <=? n) && (n <=? 13) || (n =? 32))%nat.

Fixpoint lstrip (s : string) : string :=
  match s with
  | String c rest => if is_space c then lstrip rest else s
  | EmptyString => EmptyString
  end.

Fixpoint rstrip (s : string) : string :=
  match s with
  | EmptyString => EmptyString
  | String c rest =>
      match rstrip rest with
      | EmptyString => if is_space c then EmptyString else String c EmptyString
      | kept => String c kept
      end
  end.

Definition digit_value (c : ascii) : option Z :=
  let n := nat_of_ascii c in
  if ((48 <=? n) && (n <=? 57))%nat then Some (Z.of_nat n - 48) else None.

(** Decimal digits, single underscores allowed between two digits. *)
Fixpoint int_digits (acc : Z) (after_digit : bool) (s : string) : option Z :=
  match s with
  | EmptyString => if after_digit then Some acc else None
  | String c rest =>
      match digit_value c with
      | Some d => int_digits (10 * acc + d) true rest
      | None =>
          if Ascii.eqb c "_" && after_digit then int_digits acc false rest
          else None
      end
  end.

(** [int(s)] in base ten on an ASCII string: surrounding white space, an
    optional sign, digits.  Anything else is a [ValueError].  (Digits and
    spaces outside ASCII, which [int] also accepts, and the bound that recent
    interpreters put on the number of digits are not modelled.) *)
Definition int_of_str (s : string) : outcome Z :=
  let digits body :=
    match int_digits 0 false body with
    | Some n => Return n
    | None => Raise ValueError
    end in
  match rstrip (lstrip s) with
  | EmptyString => Raise ValueError
  | String c body =>
      if Ascii.eqb c "+" then digits body
      else if Ascii.eqb c "-" then obind (digits body) (fun n => Return (- n))
      else digits (String c body)
  end.

(** Whether a string is made of the digits [0] to [9] only. *)
Fixpoint all_digits (s : string) : bool :=
  match s with
  | EmptyString => true
  | String c rest =>
      match digit_value c with
      | Some _ => all_digits rest
      | None => false
      end
  end.

(** Whether ["-"] occurs in a string. *)
Fixpoint has_dash (s : string) : bool :=
  match s with
  | EmptyString => false
  | String c rest => Ascii.eqb c "-" || has_dash rest
  end.

(** [a // b] on integers. *)
Definition floordiv (a b : Z) : outcome Z :=
  if b =? 0 then Raise ZeroDivisionError else Return (a / b).

(** [sum(l)] on a list of integers. *)
Definition sum (l : list Z) : Z := fold_left Z.add l 0.

(** [len(l)]. *)
Definition len {A : Type} (l : list A) : Z := Z.of_nat (length l).

(** [range(n)]: empty when [n <= 0]. *)
Definition range (n : Z) : list Z := map Z.of_nat (seq 0 (Z.to_nat n)).

(** [l[-1]]. *)
Definition getitem_last {A : Type} (l : list A) : outcome A :=
  match last l with
  | Some x => Return x
  | None => Raise IndexError
  end.

(** [l[i]] for [i >= 0]. *)
Definition getitem {A : Type} (l : list A) (i : nat) : outcome A :=
  match l !! i with
  | Some x => Return x
  | None => Raise IndexError
  end.

(** [[f(x) for x in xs]]: the first exception stops the comprehension. *)
Fixpoint comprehension {A B : Type} (f : A -> outcome B) (xs : list A)
  : outcome (list B) :=
  match xs with
  | [] => Return []
  | x :: rest =>
      obind (f x) (fun y =>
      obind (comprehension f rest) (fun ys => Return (y :: ys)))
  end.

(** [np.repeat(a, repeats).tolist()] for a scalar [a]. *)
Definition np_repeat {A : Type} (a : A) (repeats : Z) : outcome (list A) :=
  if repeats <? 0 then Raise ValueError
  else Return (replicate (Z.to_nat repeats) a).

(** [sep.join(parts)] *)
Fixpoint str_join (sep : string) (parts : list string) : string :=
  match parts with
  | [] => EmptyString
  | part :: rest =>
      match rest with
      | [] => part
      | _ :: _ => part +:+ sep +:+ str_join sep rest
      end
  end.

End Py.

Import Py.
Local Open Scope py_scope.

(** ** utils.py *)

Module utils.

Section Manager.

(** The type of a model rate (a Python number; it is only copied). *)
Context {Rate : Type}.

(** The state of torch's global random generator, and
    [torch.multinomial(torch.tensor(weights), num_samples, replacement=True)
    .tolist()] where [weights] is [proportion] divided by its [sum]. *)
Context {Gen : Type}.
Variable multinomial : list Z -> Z -> Z -> Gen -> outcome (list nat) * Gen.

Record Model_rate_manager : Type := {
  model_split_mode : string;
  model_split_rate : gmap string Rate;
  model_mode : list string
}.

(** [Model_rate_manager.__init__]: the mode string is stored split. *)
Definition __init__ (split_mode : string) (split_rate : gmap string Rate)
    (mode : string) : Model_rate_manager :=
  {| model_split_mode := split_mode;
     model_split_rate := split_rate;
     model_mode := str_split "-" mode |}.

(** What a call can read and write: the object itself and the random
    generator. *)
Record store : Type := {
  self : Model_rate_manager;
  generator : Gen
}.

(** [for m in self.model_mode: mode_rate.append(...); proportion.append(...)] *)
Fixpoint read_levels (rates : gmap string Rate) (tokens : list string)
    (mode_rate : list Rate) (proportion : list Z)
  : outcome (list Rate * list Z) :=
  match tokens with
  | [] => Return (mode_rate, proportion)
  | m :: rest =>
      obind (getitem0 m) (fun level =>
      match rates !! level with
      | None => Raise KeyError
      | Some rate =>
          obind (int_of_str (slice_from1 m)) (fun p =>
          read_levels rates rest (mode_rate ++ [rate]) (proportion ++ [p]))
      end)
  end.

(** [for i in range(len(mode_rate)): client_model_rate += np.repeat(...)] *)
Fixpoint emit_blocks (mode_rate : list Rate) (proportion : list Z)
    (num_users_proportion : Z) (indices : list nat)
    (client_model_rate : list Rate) : outcome (list Rate) :=
  match indices with
  | [] => Return client_model_rate
  | i :: rest =>
      obind (getitem mode_rate i) (fun rate =>
      obind (getitem proportion i) (fun p =>
      obind (np_repeat rate (num_users_proportion * p)) (fun block =>
      emit_blocks mode_rate proportion num_users_proportion rest
        (client_model_rate ++ block))))
  end.

Definition sample (proportion : list Z) (num_users : Z) : M store (list nat) :=
  fun h =>
    let (drawn, g) :=
      multinomial proportion (sum proportion) num_users (generator h) in
    (drawn, {| self := self h; generator := g |}).

Definition create_model_rate_mapping (num_users : Z)
  : M store (option (list Rate)) :=
  split_mode <- gets (fun h => model_split_mode (self h)) ;;
  if String.eqb split_mode "fix" then
    tokens <- gets (fun h => model_mode (self h)) ;;
    rates <- gets (fun h => model_split_rate (self h)) ;;
    levels <- lift (read_levels rates tokens [] []) ;;
    let '(mode_rate, proportion) := levels in
    num_users_proportion <- lift (floordiv num_users (sum proportion)) ;;
    client_model_rate <-
      lift (emit_blocks mode_rate proportion num_users_proportion
              (seq 0 (length mode_rate)) []) ;;
    padding <-
      lift (comprehension (fun _ => getitem_last client_model_rate)
              (range (num_users - len client_model_rate))) ;;
    ret (Some (client_model_rate ++ padding))
  else if String.eqb split_mode "dynamic" then
    tokens <- gets (fun h => model_mode (self h)) ;;
    rates <- gets (fun h => model_split_rate (self h)) ;;
    levels <- lift (read_levels rates tokens [] []) ;;
    let '(mode_rate, proportion) := levels in
    rate_idx <- sample proportion num_users ;;
    client_model_rate <- lift (comprehension (getitem mode_rate) rate_idx) ;;
    ret (Some client_model_rate)
  else
    ret None.

(** Several calls in a row on the same object. *)
Definition calls (nums : list Z) (h : store) : store :=
  fold_left (fun h n => snd (create_model_rate_mapping n h)) nums h.

(** The blocks the "fix" branch emits when every level gets
    [k * proportion] clients, in the order of the mode string. *)
Definition blocks (k : Z) (mode_rate : list Rate) (proportion : list Z)
  : list Rate :=
  concat (zip_with (fun rate p => replicate (Z.to_nat (k * p)) rate)
            mode_rate proportion).

(** The rate of the last level whose proportion is not zero. *)
Definition last_funded (mode_rate : list Rate) (proportion : list Z)
  : option Rate :=
  last (concat (zip_with (fun rate p => if 0 <? p then [rate] else [])
                  mode_rate proportion)).

(** "The tail a call pads is filled with the rate of the final level of the
    mode string", for one store and one number of users. *)
Definition pads_with_final_level (h : store) (num_users : Z) : Prop :=
  forall mode_rate proportion final,
    model_split_mode (self h) = "fix" ->
    read_levels (model_split_rate (self h)) (model_mode (self h)) [] []
      = Return (mode_rate, proportion) ->
    sum proportion <= num_users ->
    last mode_rate = Some final ->
    exists l,
      fst (create_model_rate_mapping num_users h) = Return (Some l) /\
      len l = num_users /\
      forall i : nat,
        (length (blocks (num_users / sum proportion) mode_rate proportion) <= i
         < length l)%nat ->
        l !! i = Some final.

End Manager.

Arguments Model_rate_manager Rate : clear implicits.
Arguments store Rate Gen : clear implicits.

Section Save.

(** What [model.state_dict()] holds. *)
Context {Weights : Type}.

(** A file written by [torch.save]: [Path(parent) / name] and its content. *)
Record file : Type := {
  parent : string;
  name : string;
  content : Weights
}.

(** [save_model(model, path)]; [output_dir] is
    [HydraConfig.get().runtime.output_dir], [state_dict] is
    [model.state_dict()] and [disk] the files written so far. *)
Definition save_model (output_dir : string) (state_dict : Weights)
    (path : string) (disk : list file) : list file :=
  disk ++ [{| parent := output_dir; name := path; content := state_dict |}].

End Save.

Arguments file Weights : clear implicits.

(** The token of a level in a mode string: the letter of the level, then its
    proportion in decimal. *)
Definition token (level : ascii) (proportion : N) : string :=
  String level (pretty proportion).

(** [get_global_model_rate(model_mode)]: the level letter of the first token
    of the mode string. *)
Definition get_global_model_rate (model_mode : string) : outcome string :=
  let model_mode := "" +:+ model_mode in
  obind (getitem (str_split "-" model_mode) 0) getitem0.

Section Preprocess.

(** A value read from the Hydra configuration; it is only copied. *)
Context {Node : Type}.

(** The fields of [cfg_model] and of [cfg_data] that [preprocess_input]
    reads. *)
Record cfg_model : Type := {
  model_name : Node;
  hidden_layers : Node;
  norm : Node
}.

Record cfg_data : Type := {
  dataset_name : string
}.

(** What [model_config] can hold: a copied configuration value, a list of
    integers or an integer. *)
Inductive entry : Type :=
| Configured (value : Node)
| Ints (values : list Z)
| Int (value : Z).

Definition preprocess_input (model : cfg_model) (data : cfg_data)
  : gmap string entry :=
  let model_config : gmap string entry := ∅ in
  let model_config := <["model" := Configured (model_name model)]> model_config in
  let model_config :=
    if String.eqb (dataset_name data) "MNIST" then
      <["classes_size" := Int 10]>
        (<["data_shape" := Ints [1; 28; 28]]> model_config)
    else if String.eqb (dataset_name data) "CIFAR10" then
      <["classes_size" := Int 10]>
        (<["data_shape" := Ints [3; 32; 32]]> model_config)
    else model_config in
  let model_config :=
    <["hidden_layers" := Configured (hidden_layers model)]> model_config in
  <["norm" := Configured (norm model)]> model_config.

End Preprocess.

Arguments cfg_model Node : clear implicits.
Arguments entry Node : clear implicits.

End utils.

(** ** server.py *)

Module server.

(** Insertion-ordered dictionaries with string keys ([OrderedDict], and the
    [dict] a comprehension builds). *)
Section Dict.

Context {V : Type}.

Fixpoint dict_get (k : string) (d : list (string * V)) : option V :=
  match d with
  | [] => None
  | (k', v) :: rest => if String.eqb k' k then Some v else dict_get k rest
  end.

(** [d[k] = v]: a known key keeps its place, a new one goes last. *)
Fixpoint dict_set (k : string) (v : V) (d : list (string * V))
  : list (string * V) :=
  match d with
  | [] => [(k, v)]
  | (k', v') :: rest =>
      if String.eqb k' k then (k', v) :: rest else (k', v') :: dict_set k v rest
  end.

(** [{k: v for k, v in pairs}] *)
Definition dict_of_pairs (pairs : list (string * V)) : list (string * V) :=
  fold_left (fun d kv => dict_set (fst kv) (snd kv) d) pairs [].

Definition has_key (k : string) (d : list (string * V)) : bool :=
  match dict_get k d with
  | Some _ => true
  | None => false
  end.

End Dict.

(** The data loaders [evaluate] can iterate. *)
Inductive source : Set :=
| Entire_trainloader
| Valloader (i : nat)
| Testloader.

Section Evaluate.

(** Arrays received from the strategy, tensors, batches of a loader, the
    label subset of a client, and Python numbers (losses, accuracies and the
    literals [0] and [1]) with their [+]. *)
Context {NDArray Tensor Batch Labels Scalar Config : Type}.
Variable torch_Tensor : NDArray -> Tensor.
Variable shape : Tensor -> list nat.
Variable of_int : Z -> Scalar.
Variable add : Scalar -> Scalar -> Scalar.

(** [net.state_dict()], in declared order, and the training flag. *)
Record Module_ : Type := {
  state : list (string * Tensor);
  training : bool
}.

(** [net(input_dict)] on one batch, output discarded: the forward pass may
    refresh the running statistics the module keeps. *)
Variable forward : Module_ -> Batch -> Module_.

(** [heterofl.models.test(net, loader, label_split, device=device)]: the
    pair (loss, accuracy), and the module as the call leaves it. *)
Variable test :
  Module_ -> list Batch -> option Labels -> (Scalar * Scalar) * Module_.

(** [labels.type(torch.int)] *)
Variable type_int : Labels -> Labels.

(** What torch leaves in the module when [load_state_dict] raises. *)
Variable load_residue : Module_ -> list (string * Tensor) -> Module_.

(** [HydraConfig.get().runtime.output_dir] *)
Variable output_dir : string.

(** The dictionary [gen_evaluate_fn] receives, with its four keys. *)
Record data_loaders : Type := {
  entire_trainloader : list Batch;
  valloaders : list (list Batch);
  label_split : list Labels;
  testloader : list Batch
}.

(** What a call of [evaluate] can change: the shared model and the files
    below the output directory.  [iterated] is a log kept for the statements
    only: the loaders that have been iterated so far, by the pass over the
    training set or inside [test], oldest first. *)
Record world : Type := {
  net : Module_;
  disk : list (utils.file (list (string * Tensor)));
  iterated : list source
}.

Definition set_net (n : Module_) (w : world) : world :=
  {| net := n; disk := disk w; iterated := iterated w |}.

Definition iterate (s : source) : M world unit :=
  modify (fun w =>
    {| net := net w; disk := disk w; iterated := iterated w ++ [s] |}).

(** [net.load_state_dict(state_dict, strict=True)]: a key the module has
    and [state_dict] lacks, a key the module does not have, or a tensor of
    another shape raise [RuntimeError].  (torch makes one exception, which is
    not modelled: a tensor of one dimension offered for a tensor of no
    dimension is loaded through its first element.  The statements that
    depend on a shape being refused exclude that case.) *)
Definition load_state_dict (state_dict : list (string * Tensor))
  : M world unit :=
  fun w =>
    let own := state (net w) in
    let missing_keys :=
      existsb (fun kv => negb (has_key (fst kv) state_dict)) own in
    let unexpected_keys :=
      existsb (fun kv => negb (has_key (fst kv) own)) state_dict in
    let size_mismatch :=
      existsb (fun kv =>
        match dict_get (fst kv) state_dict with
        | Some t => negb (bool_decide (shape t = shape (snd kv)))
        | None => false
        end) own in
    if missing_keys || unexpected_keys || size_mismatch then
      (Raise RuntimeError, set_net (load_residue (net w) state_dict) w)
    else
      let loaded :=
        map (fun kv => (fst kv, default (snd kv) (dict_get (fst kv) state_dict)))
          own in
      (Return tt, set_net {| state := loaded; training := training (net w) |} w).

(** [save_model(net, path)] on the shared model. *)
Definition save (path : string) : M world unit :=
  modify (fun w =>
    {| net := net w;
       disk := utils.save_model output_dir (state (net w)) path (disk w);
       iterated := iterated w |}).

(** [net.train(True)] *)
Definition train (mode : bool) : M world unit :=
  modify (fun w => set_net {| state := state (net w); training := mode |} w).

(** [for images, labels in loader: net(input_dict)] *)
Fixpoint forward_all (loader : list Batch) : M world unit :=
  match loader with
  | [] => ret tt
  | batch :: rest =>
      modify (fun w => set_net (forward (net w) batch) w) ;;;
      forward_all rest
  end.

Definition run_test (loader : list Batch) (labels : option Labels)
  : M world (Scalar * Scalar) :=
  fun w =>
    let (res, n) := test (net w) loader labels in
    (Return res, set_net n w).

(** [for i, clnt_tstldr in enumerate(data_loaders["valloaders"]): ...],
    started at index [i] with the two sums of [local_metrics]. *)
Fixpoint test_clients (dl : data_loaders) (i : nat)
    (loaders : list (list Batch)) (loss accuracy : Scalar)
  : M world (Scalar * Scalar) :=
  match loaders with
  | [] => ret (loss, accuracy)
  | clnt_tstldr :: rest =>
      labels <- lift (getitem (label_split dl) i) ;;
      iterate (Valloader i) ;;;
      client_test_res <- run_test clnt_tstldr (Some (type_int labels)) ;;
      test_clients dl (S i) rest
        (add loss (fst client_test_res)) (add accuracy (snd client_test_res))
  end.

(** The name of the checkpoint of a round. *)
Definition checkpoint_name (server_round : Z) : string :=
  "model_after_round_" +:+ pretty server_round +:+ ".pth".

(** The rounds on which [evaluate] only returns the placeholder. *)
Definition skipped (server_round : Z) : bool :=
  negb (server_round mod 5 =? 0) && (server_round <? 395).

Definition evaluate (dl : data_loaders) (server_round : Z)
    (parameters_ndarrays : list NDArray) (config : Config)
  : M world (Scalar * list (string * Scalar)) :=
  if skipped server_round then ret (of_int 1, [])
  else
    keys <- gets (fun w => map fst (state (net w))) ;;
    let params_dict := zip keys parameters_ndarrays in
    let state_dict :=
      dict_of_pairs (map (fun kv => (fst kv, torch_Tensor (snd kv))) params_dict) in
    load_state_dict state_dict ;;;
    (if server_round mod 100 =? 0
     then save (checkpoint_name server_round) else ret tt) ;;;
    train true ;;;
    iterate Entire_trainloader ;;;
    forward_all (entire_trainloader dl) ;;;
    local_metrics <- test_clients dl 0 (valloaders dl) (of_int 0) (of_int 0) ;;
    iterate Testloader ;;;
    global_metrics <- run_test (testloader dl) None ;;
    ret (fst global_metrics,
         [("global_accuracy", snd global_metrics);
          ("local_loss", fst local_metrics);
          ("local_accuracy", snd local_metrics)]).

(** [gen_evaluate_fn(data_loaders, device, model)] returns the closure; the
    model it closes over is the [net] of the world.  The device only says
    where the tensors live, so [net.to(device)] changes nothing here, and the
    [print] and [time] calls are left out. *)
Definition gen_evaluate_fn (dl : data_loaders) := evaluate dl.

(** The per-client results of [test], in client order, with the module each
    call starts from. *)
Fixpoint client_results (n : Module_) (loaders : list (list Batch))
    (labels : list Labels) : list (Scalar * Scalar) :=
  match loaders, labels with
  | clnt_tstldr :: rest, l :: labels' =>
      let (res, n') := test n clnt_tstldr (Some (type_int l)) in
      res :: client_results n' rest labels'
  | _, _ => []
  end.

(** The module after the tests of all clients. *)
Fixpoint after_clients (n : Module_) (loaders : list (list Batch))
    (labels : list Labels) : Module_ :=
  match loaders, labels with
  | clnt_tstldr :: rest, l :: labels' =>
      after_clients (snd (test n clnt_tstldr (Some (type_int l)))) rest labels'
  | _, _ => n
  end.

(** Python's [0 + x1 + x2 + ...], summed from the left. *)
Definition total (xs : list Scalar) : Scalar := fold_left add xs (of_int 0).

(** The [state_dict] that [evaluate] builds from the arrays it receives. *)
Definition received (n : Module_) (parameters_ndarrays : list NDArray)
  : list (string * Tensor) :=
  dict_of_pairs
    (map (fun kv => (fst kv, torch_Tensor (snd kv)))
       (zip (map fst (state n)) parameters_ndarrays)).

(** The module after [net.train(True)] and the pass over a loader. *)
Definition warmed (n : Module_) (loader : list Batch) : Module_ :=
  fold_left forward loader {| state := state n; training := true |}.

(** The world after the checkpoint step of a round. *)
Definition checkpointed (server_round : Z) (w : world) : world :=
  if server_round mod 100 =? 0 then
    {| net := net w;
       disk := utils.save_model output_dir (state (net w))
                 (checkpoint_name server_round) (disk w);
       iterated := iterated w |}
  else w.

(** The loaders a full pass iterates, in order. *)
Definition full_pass (dl : data_loaders) : list source :=
  Entire_trainloader
  :: map Valloader (seq 0 (length (valloaders dl))) ++ [Testloader].

(** "A parameter sequence whose length is not the model's parameter count
    makes a qualifying round raise", for one call. *)
Definition rejects_length_mismatch (dl : data_loaders) (server_round : Z)
    (parameters_ndarrays : list NDArray) (config : Config) (w : world) : Prop :=
  skipped server_round = false ->
  length parameters_ndarrays <> length (state (net w)) ->
  exists e w',
    evaluate dl server_round parameters_ndarrays config w = (Raise e, w').

End Evaluate.

Arguments Module_ Tensor : clear implicits.
Arguments data_loaders Batch Labels : clear implicits.
Arguments world Tensor : clear implicits.

End server.

(** ** Concrete instances used in the examples *)

Module Demo.

Definition one : Q := Qmake 1 1.
Definition half : Q := Qmake 1 2.

#[global] Instance Q_eq_dec : EqDecision Q.
Proof. solve_decision. Defined.

(** The catalogue [{"a": 1.0, "b": 0.5}]. *)
Definition rates : gmap string Q := <["a" := one]> (<["b" := half]> ∅).

(** A generator that always draws the first level. *)
Definition first_level (proportion : list Z) (total num_samples : Z) (g : unit)
  : outcome (list nat) * unit :=
  (Return (replicate (Z.to_nat num_samples) 0%nat), g).

(** [Model_rate_manager(split_mode, rates, mode)] *)
Definition manager (split_mode mode : string) : utils.store Q unit :=
  {| utils.self := utils.__init__ split_mode rates mode;
     utils.generator := tt |}.

(** A model with a weight of two entries and a bias of one, tensors as
    flat lists; loaders whose batches carry the loss and the accuracy that
    the test stub reports for them. *)
Definition torch_Tensor (v : list Z) : list Z := v.
Definition shape (t : list Z) : list nat := [length t].
Definition forward (n : server.Module_ (list Z)) (batch : Z * Z)
  : server.Module_ (list Z) := n.
Definition test (n : server.Module_ (list Z)) (loader : list (Z * Z))
    (labels : option (list Z)) : (Z * Z) * server.Module_ (list Z) :=
  ((sum (map fst loader), sum (map snd loader)), n).
Definition type_int (labels : list Z) : list Z := labels.
(** As torch does, the tensors whose key and shape match are copied before
    the exception is raised; the others stay as they were. *)
Definition load_residue (n : server.Module_ (list Z))
    (state_dict : list (string * list Z)) : server.Module_ (list Z) :=
  {| server.state :=
       map (fun kv =>
              match server.dict_get (fst kv) state_dict with
              | Some t =>
                  if bool_decide (shape t = shape (snd kv)) then (fst kv, t)
                  else kv
              | None => kv
              end) (server.state n);
     server.training := server.training n |}.

Definition evaluate :=
  server.evaluate (Config := unit) torch_Tensor shape (fun z : Z => z) Z.add
    forward test type_int load_residue "outputs".

Definition rejects_length_mismatch :=
  server.rejects_length_mismatch (Config := unit) torch_Tensor shape
    (fun z : Z => z) Z.add forward test type_int load_residue "outputs".

Definition model : server.Module_ (list Z) :=
  {| server.state := [("w", [0; 0]); ("b", [0])]; server.training := false |}.

Definition fresh : server.world (list Z) :=
  {| server.net := model; server.disk := []; server.iterated := [] |}.

(** The world once the arrays [[1, 2]] and [[3]] are loaded. *)
Definition loaded : server.world (list Z) :=
  {| server.net :=
       {| server.state := [("w", [1; 2]); ("b", [3])];
          server.training := false |};
     server.disk := [];
     server.iterated := [] |}.

(** Three clients, with results (2, 1), (3, 1) and (5, 0); the global test
    set gives (7, 1). *)
Definition loaders : server.data_loaders (Z * Z) (list Z) :=
  {| server.entire_trainloader := [(0, 0)];
     server.valloaders := [[(2, 1)]; [(3, 1)]; [(5, 0)]];
     server.label_split := [[0]; [1]; [2]];
     server.testloader := [(7, 1)] |}.

(** The same bundle without any client. *)
Definition no_clients : server.data_loaders (Z * Z) (list Z) :=
  {| server.entire_trainloader := [(0, 0)];
     server.valloaders := [];
     server.label_split := [];
     server.testloader := [(7, 1)] |}.


(** A generator that draws the levels 1, 0, 1 and counts its calls. *)
Definition draws (proportion : list Z) (total num_samples : Z) (g : nat)
  : outcome (list nat) * nat :=
  (Return [1%nat; 0%nat; 1%nat], S g).

End Demo.

(** * Facts *)

(** ** Python primitives *)

Section PyFacts.

Lemma fold_add_shift (l : list Z) (a : Z) :
  fold_left Z.add l a = a + fold_left Z.add l 0.
Proof.
  revert a. induction l as [|x l IH]; intros a; simpl; [lia|].
  rewrite (IH (a + x)), (IH (0 + x)). lia.
Qed.

Lemma sum_cons (p : Z) (l : list Z) : sum (p :: l) = p + sum l.
Proof. unfold sum. simpl. apply fold_add_shift. Qed.

Lemma sum_nonneg (l : list Z) : Forall (fun p => 0 <= p) l -> 0 <= sum l.
Proof.
  induction 1 as [|p l Hp _ IH]; [reflexivity|]. rewrite sum_cons. lia.
Qed.

Lemma range_length (n : Z) : length (range n) = Z.to_nat n.
Proof. unfold range. now rewrite length_map, length_seq. Qed.

(** A comprehension whose body does not depend on the loop variable. *)
Lemma comprehension_const {A B : Type} (o : outcome B) (xs : list A) :
  comprehension (fun _ => o) xs =
  match xs, o with
  | [], _ => Return []
  | _ :: _, Return y => Return (replicate (length xs) y)
  | _ :: _, Raise e => Raise e
  end.
Proof.
  induction xs as [|x xs IH]; [reflexivity|].
  simpl. destruct o as [y|e]; simpl; [|reflexivity].
  rewrite IH. now destruct xs.
Qed.

Lemma padding_nothing {A : Type} (l : list A) (n : Z) :
  n <= 0 -> comprehension (fun _ => getitem_last l) (range n) = Return [].
Proof.
  intros Hn. unfold range. now replace (Z.to_nat n) with 0%nat by lia.
Qed.

Lemma padding_last {A : Type} (l : list A) (n : Z) (x : A) :
  last l = Some x ->
  comprehension (fun _ => getitem_last l) (range n)
  = Return (replicate (Z.to_nat n) x).
Proof.
  intros Hl. rewrite comprehension_const. unfold getitem_last. rewrite Hl.
  pose proof (range_length n) as Hlen.
  destruct (range n); simpl in *; now rewrite <- Hlen.
Qed.

Lemma padding_empty {A : Type} (n : Z) :
  0 < n ->
  comprehension (fun _ => getitem_last (@nil A)) (range n) = Raise IndexError.
Proof.
  intros Hn. rewrite comprehension_const.
  pose proof (range_length n) as Hlen.
  destruct (range n); simpl in *; [lia|reflexivity].
Qed.

(** What the continuation of a [bind] leaves alone is decided by its first
    computation. *)
Lemma bind_proj {S A B X : Type} (proj : S -> X) (m : M S A) (k : A -> M S B) :
  (forall a s, proj (snd (k a s)) = proj s) ->
  forall s, proj (snd (bind m k s)) = proj (snd (m s)).
Proof.
  intros Hk s. unfold bind.
  destruct (m s) as [[a|e] s']; simpl; [apply Hk|reflexivity].
Qed.

Lemma bind_keeps {S A B X : Type} (proj : S -> X) (m : M S A) (k : A -> M S B) :
  (forall s, proj (snd (m s)) = proj s) ->
  (forall a s, proj (snd (k a s)) = proj s) ->
  forall s, proj (snd (bind m k s)) = proj s.
Proof. intros Hm Hk s. now rewrite (bind_proj proj m k Hk), Hm. Qed.

Lemma string_length_app (s t : string) :
  String.length (s +:+ t) = (String.length s + String.length t)%nat.
Proof. induction s as [|c s IH]; simpl; [reflexivity|now rewrite IH]. Qed.

(** A common suffix can be cancelled. *)
Lemma string_app_inj_r (t : string) :
  forall s1 s2 : string, s1 +:+ t = s2 +:+ t -> s1 = s2.
Proof.
  intros s1 s2 Heq.
  assert (String.length s1 = String.length s2) as Hlen.
  { apply (f_equal String.length) in Heq. rewrite !string_length_app in Heq. lia. }
  revert s2 Heq Hlen.
  induction s1 as [|c s1 IH]; intros [|c' s2] Heq Hlen;
    try discriminate; [reflexivity|].
  simpl in Heq, Hlen. inversion Heq; subst. f_equal. apply IH; [assumption|lia].
Qed.

End PyFacts.

(** ** The model-rate manager *)

Section ManagerFacts.

Context {Rate Gen : Type} `{!EqDecision Rate}.
Variable multinomial : list Z -> Z -> Z -> Gen -> outcome (list nat) * Gen.

Import utils.


(** The first loop fills [mode_rate] and [proportion] in step. *)
Lemma read_levels_length (rates : gmap string Rate) (tokens : list string) :
  forall mode_rate proportion mode_rate' proportion',
    read_levels rates tokens mode_rate proportion
      = Return (mode_rate', proportion') ->
    length mode_rate = length proportion ->
    length mode_rate' = length proportion'.
Proof.
  induction tokens as [|m rest IH]; intros mr pr mr' pr' Hrun Hlen; simpl in Hrun.
  - now inversion Hrun; subst.
  - destruct (getitem0 m) as [level|]; simpl in Hrun; [|discriminate].
    destruct (rates !! level) as [rate|]; [|discriminate].
    destruct (int_of_str (slice_from1 m)) as [p|]; simpl in Hrun; [|discriminate].
    apply IH in Hrun; [exact Hrun|]. rewrite !length_app. simpl. lia.
Qed.

Lemma blocks_cons (k : Z) (rate : Rate) (p : Z) mode_rate proportion :
  blocks k (rate :: mode_rate) (p :: proportion)
  = replicate (Z.to_nat (k * p)) rate ++ blocks k mode_rate proportion.
Proof. reflexivity. Qed.

(** The second loop, started after a prefix of the levels. *)
Lemma emit_blocks_from (k : Z) (mode_rate : list Rate) :
  forall (proportion : list Z) (done_rate : list Rate) (done_prop : list Z)
         (client_model_rate : list Rate),
    length done_rate = length done_prop ->
    length mode_rate = length proportion ->
    Forall (fun p => 0 <= k * p) proportion ->
    emit_blocks (done_rate ++ mode_rate) (done_prop ++ proportion) k
      (seq (length done_rate) (length mode_rate)) client_model_rate
    = Return (client_model_rate ++ blocks k mode_rate proportion).
Proof.
  induction mode_rate as [|rate mode_rate IH];
    intros [|p proportion] dr dp acc Hdone Hlen Hpos; try discriminate.
  - simpl. now rewrite app_nil_r.
  - simpl seq. simpl emit_blocks. unfold getitem.
    rewrite (list_lookup_middle dr mode_rate rate) by reflexivity.
    rewrite (list_lookup_middle dp proportion p) by exact Hdone.
    simpl. unfold np_repeat.
    inversion Hpos as [|? ? Hp Hrest]; subst.
    destruct (Z.ltb_spec (k * p) 0) as [Hneg|_]; [lia|]. simpl.
    specialize (IH proportion (dr ++ [rate]) (dp ++ [p])
                  (acc ++ replicate (Z.to_nat (k * p)) rate)).
    rewrite <- !app_assoc in IH. simpl in IH.
    rewrite !length_app in IH. simpl in IH.
    replace (length dr + 1)%nat with (S (length dr)) in IH by lia.
    rewrite IH; [|lia|simpl in Hlen; lia|exact Hrest].
    now rewrite blocks_cons, app_assoc.
Qed.

Lemma emit_blocks_all (k : Z) (mode_rate : list Rate) (proportion : list Z) :
  length mode_rate = length proportion ->
  Forall (fun p => 0 <= k * p) proportion ->
  emit_blocks mode_rate proportion k (seq 0 (length mode_rate)) []
  = Return (blocks k mode_rate proportion).
Proof.
  intros Hlen Hpos.
  exact (emit_blocks_from k mode_rate proportion [] [] [] eq_refl Hlen Hpos).
Qed.

Lemma blocks_len (k : Z) (mode_rate : list Rate) :
  forall proportion : list Z,
    length mode_rate = length proportion ->
    Forall (fun p => 0 <= k * p) proportion ->
    len (blocks k mode_rate proportion) = k * sum proportion.
Proof.
  unfold len.
  induction mode_rate as [|rate mode_rate IH];
    intros [|p proportion] Hlen Hpos; try discriminate.
  - simpl. unfold sum. simpl. lia.
  - inversion Hpos as [|? ? Hp Hrest]; subst.
    rewrite blocks_cons, length_app, length_replicate, sum_cons.
    rewrite Nat2Z.inj_add, IH by (simpl in Hlen; (lia || assumption)). lia.
Qed.

Lemma blocks_zero (mode_rate : list Rate) :
  forall proportion : list Z, blocks 0 mode_rate proportion = [].
Proof.
  induction mode_rate as [|rate mode_rate IH]; intros [|p proportion];
    try reflexivity.
  rewrite blocks_cons, IH. reflexivity.
Qed.

Lemma last_replicate (n : nat) (x : Rate) :
  last (replicate n x) = if decide (n = 0%nat) then None else Some x.
Proof.
  destruct n as [|n]; [reflexivity|].
  rewrite replicate_S_end, last_snoc. reflexivity.
Qed.

(** With a count of at least one per unit of proportion, the last rate
    emitted is the rate of the last level that has clients. *)
Lemma last_blocks (k : Z) (mode_rate : list Rate) :
  1 <= k ->
  forall proportion : list Z,
    Forall (fun p => 0 <= p) proportion ->
    last (blocks k mode_rate proportion) = last_funded mode_rate proportion.
Proof.
  intros Hk. unfold last_funded.
  induction mode_rate as [|rate mode_rate IH]; intros [|p proportion] Hpos;
    try reflexivity.
  inversion Hpos as [|? ? Hp Hrest]; subst.
  rewrite blocks_cons. simpl concat. rewrite !last_app, IH by exact Hrest.
  destruct (last _); [reflexivity|].
  rewrite last_replicate.
  destruct (Z.ltb_spec 0 p); destruct (decide _); try reflexivity; nia.
Qed.

Lemma last_funded_final (mode_rate : list Rate) :
  forall (proportion : list Z) (rate : Rate) (p : Z),
    length mode_rate = length proportion ->
    last mode_rate = Some rate -> last proportion = Some p -> 0 < p ->
    last_funded mode_rate proportion = Some rate.
Proof.
  intros proportion rate p Hlen Hr Hp Hpos.
  apply last_Some in Hr as [mr ->]. apply last_Some in Hp as [pr ->].
  rewrite !length_app in Hlen. simpl in Hlen.
  unfold last_funded. rewrite zip_with_app by lia. simpl.
  rewrite concat_app, last_app. simpl.
  destruct (Z.ltb_spec 0 p); [reflexivity|lia].
Qed.

(** A mode string is split at every ["-"], so no token can carry a minus
    sign: the proportions of a manager built by [__init__] are never
    negative. *)
Lemma str_split_no_dash (s : string) :
  Forall (fun t => has_dash t = false) (str_split "-" s).
Proof.
  induction s as [|c s IH]; simpl; [repeat constructor|].
  destruct (Ascii.eqb c "-") eqn:Hc; [constructor; [reflexivity|exact IH]|].
  destruct (str_split "-" s) as [|head others]; simpl.
  - repeat constructor. simpl. now rewrite Hc.
  - inversion IH as [|? ? Hhead Hothers]; subst.
    constructor; [simpl; now rewrite Hc|exact Hothers].
Qed.

Lemma lstrip_no_dash (s : string) :
  has_dash s = false -> has_dash (lstrip s) = false.
Proof.
  induction s as [|c s IH]; simpl; [reflexivity|]. intros Hs.
  apply orb_false_iff in Hs as [Hc Hrest].
  destruct (is_space c); [now apply IH|]. simpl. now rewrite Hc, Hrest.
Qed.

Lemma rstrip_no_dash (s : string) :
  has_dash s = false -> has_dash (rstrip s) = false.
Proof.
  induction s as [|c s IH]; simpl; [reflexivity|]. intros Hs.
  apply orb_false_iff in Hs as [Hc Hrest]. specialize (IH Hrest).
  destruct (rstrip s) as [|c' kept].
  - destruct (is_space c); [reflexivity|]. simpl. now rewrite Hc.
  - simpl in *. now rewrite Hc, IH.
Qed.

Lemma int_digits_nonneg (s : string) :
  forall (acc : Z) (after_digit : bool) (n : Z),
    0 <= acc -> int_digits acc after_digit s = Some n -> 0 <= n.
Proof.
  induction s as [|c s IH]; intros acc after_digit n Hacc Hrun; simpl in Hrun.
  - destruct after_digit; [now inversion Hrun; subst|discriminate].
  - unfold digit_value in Hrun.
    destruct ((48 <=? nat_of_ascii c)%nat && (nat_of_ascii c <=? 57)%nat)
      eqn:Hdigit.
    + apply andb_true_iff in Hdigit as [Hlow _]. apply Nat.leb_le in Hlow.
      eapply IH; [|exact Hrun]. lia.
    + destruct (Ascii.eqb c "_" && after_digit); [|discriminate].
      eapply IH; [exact Hacc|exact Hrun].
Qed.

Lemma int_of_str_nonneg (s : string) (n : Z) :
  has_dash s = false -> int_of_str s = Return n -> 0 <= n.
Proof.
  intros Hs Hrun. unfold int_of_str in Hrun.
  pose proof (rstrip_no_dash _ (lstrip_no_dash _ Hs)) as Hbody.
  destruct (rstrip (lstrip s)) as [|c body]; [discriminate|].
  simpl in Hbody. apply orb_false_iff in Hbody as [Hc _]. rewrite Hc in Hrun.
  destruct (Ascii.eqb c "+").
  - destruct (int_digits 0 false body) as [m|] eqn:Hm; inversion Hrun; subst.
    now apply (int_digits_nonneg body 0 false).
  - destruct (int_digits 0 false (String c body)) as [m|] eqn:Hm;
      inversion Hrun; subst.
    now apply (int_digits_nonneg (String c body) 0 false).
Qed.

Lemma read_levels_nonneg (rates : gmap string Rate) (tokens : list string) :
  forall mode_rate proportion mode_rate' proportion',
    Forall (fun t => has_dash t = false) tokens ->
    Forall (fun p => 0 <= p) proportion ->
    read_levels rates tokens mode_rate proportion
      = Return (mode_rate', proportion') ->
    Forall (fun p => 0 <= p) proportion'.
Proof.
  induction tokens as [|m rest IH]; intros mr pr mr' pr' Htok Hpos Hrun;
    simpl in Hrun.
  - now inversion Hrun; subst.
  - inversion Htok as [|? ? Hm Hrest]; subst.
    destruct (getitem0 m) as [level|]; simpl in Hrun; [|discriminate].
    destruct (rates !! level) as [rate|]; [|discriminate].
    destruct (int_of_str (slice_from1 m)) as [p|] eqn:Hp; simpl in Hrun;
      [|discriminate].
    apply (IH _ _ _ _ Hrest) in Hrun; [exact Hrun|].
    apply Forall_app. split; [exact Hpos|]. repeat constructor.
    apply (int_of_str_nonneg (slice_from1 m)); [|exact Hp].
    destruct m as [|c m]; [reflexivity|].
    simpl in Hm. now apply orb_false_iff in Hm as [_ Hm].
Qed.

Lemma constructed_proportions_nonneg (split_mode mode : string)
    (rates : gmap string Rate) (mode_rate : list Rate) (proportion : list Z) :
  read_levels rates (model_mode (__init__ split_mode rates mode)) [] []
    = Return (mode_rate, proportion) ->
  Forall (fun p => 0 <= p) proportion.
Proof.
  apply read_levels_nonneg; [apply str_split_no_dash|constructor].
Qed.

(** The "fix" branch, once the levels are read and the counts are known not
    to be negative: the blocks, then the padding. *)
Lemma fix_branch (h : store Rate Gen) (mode_rate : list Rate)
    (proportion : list Z) (num_users : Z) :
  model_split_mode (self h) = "fix" ->
  read_levels (model_split_rate (self h)) (model_mode (self h)) [] []
    = Return (mode_rate, proportion) ->
  sum proportion <> 0 ->
  Forall (fun p => 0 <= num_users / sum proportion * p) proportion ->
  create_model_rate_mapping multinomial num_users h
  = (obind
       (comprehension
          (fun _ => getitem_last
                      (blocks (num_users / sum proportion) mode_rate proportion))
          (range (num_users
                  - len (blocks (num_users / sum proportion) mode_rate proportion))))
       (fun padding =>
          Return (Some (blocks (num_users / sum proportion) mode_rate proportion
                        ++ padding))),
     h).
Proof.
  intros Hmode Hread Hsum Hpos.
  pose proof (read_levels_length _ _ _ _ _ _ Hread eq_refl) as Hlen.
  unfold create_model_rate_mapping, bind, gets, lift, ret. simpl.
  rewrite Hmode. simpl. rewrite Hread. unfold floordiv.
  destruct (Z.eqb_spec (sum proportion) 0) as [Hz|_]; [contradiction|].
  rewrite (emit_blocks_all _ _ _ Hlen Hpos).
  now destruct (comprehension _ _).
Qed.

Lemma elem_of_blocks (k : Z) (x : Rate) (mode_rate : list Rate) :
  forall proportion : list Z,
    x ∈ blocks k mode_rate proportion -> x ∈ mode_rate.
Proof.
  induction mode_rate as [|rate mode_rate IH]; intros [|p proportion] Hin;
    try (now apply elem_of_nil in Hin).
  rewrite blocks_cons in Hin. apply elem_of_app in Hin as [Hin|Hin].
  - apply elem_of_replicate in Hin as [-> _]. apply elem_of_cons. now left.
  - apply elem_of_cons. right. eauto.
Qed.

Lemma filter_replicate_eq (n : nat) (x : Rate) :
  filter (fun y => y = x) (replicate n x) = replicate n x.
Proof.
  induction n as [|n IH]; [reflexivity|].
  simpl. rewrite filter_cons_True by reflexivity. now rewrite IH.
Qed.

Lemma filter_replicate_ne (n : nat) (x y : Rate) :
  y <> x -> filter (fun z => z = x) (replicate n y) = [].
Proof.
  intros Hne. induction n as [|n IH]; [reflexivity|].
  simpl. now rewrite filter_cons_False.
Qed.

Lemma filter_absent (x : Rate) (l : list Rate) :
  x ∉ l -> filter (fun y => y = x) l = [].
Proof.
  induction l as [|y l IH]; intros Hnot; [reflexivity|].
  rewrite filter_cons_False.
  - apply IH. intros Hin. apply Hnot, elem_of_cons. now right.
  - intros ->. apply Hnot, elem_of_cons. now left.
Qed.

(** When the rates of the levels differ from one another, the clients that
    hold the rate of a level are the clients of its block. *)
Lemma blocks_count (k : Z) (mode_rate : list Rate) :
  NoDup mode_rate ->
  forall (proportion : list Z) (i : nat) (rate : Rate) (p : Z),
    mode_rate !! i = Some rate -> proportion !! i = Some p ->
    length (filter (fun x => x = rate) (blocks k mode_rate proportion))
    = Z.to_nat (k * p).
Proof.
  induction 1 as [|r mode_rate Hfresh Hnodup IH];
    intros [|p0 proportion] i rate p Hr Hp; try discriminate.
  rewrite blocks_cons, filter_app, length_app.
  destruct i as [|i]; simpl in Hr, Hp.
  - inversion Hr; inversion Hp; subst.
    rewrite filter_replicate_eq, length_replicate.
    rewrite filter_absent; [simpl; lia|].
    intros Hin. now apply elem_of_blocks in Hin.
  - assert (r <> rate) as Hne.
    { intros ->. apply Hfresh. eapply list_elem_of_lookup_2. exact Hr. }
    rewrite filter_replicate_ne by exact Hne. simpl. eauto.
Qed.

End ManagerFacts.

(** ** Proportions written in decimal *)

Section DecimalFacts.

Lemma digit_value_pretty (d : N) :
  (d < 10)%N -> digit_value (pretty_N_char d) = Some (Z.of_N d).
Proof.
  intros Hd.
  assert (d = 0 \/ d = 1 \/ d = 2 \/ d = 3 \/ d = 4 \/ d = 5 \/ d = 6 \/ d = 7
          \/ d = 8 \/ d = 9)%N as Hcases by lia.
  repeat (destruct Hcases as [->|Hcases]; [reflexivity|]).
  now subst.
Qed.

(** Reading the digits that [pretty] writes in front of a string. *)
Lemma int_digits_pretty_go (x : N) :
  forall (s : string) (after_digit : bool),
    (0 < x)%N ->
    int_digits 0 after_digit (pretty_N_go x s) = int_digits (Z.of_N x) true s.
Proof.
  induction (N.lt_wf_0 x) as [x _ IH]. intros s after_digit Hx.
  rewrite pretty_N_go_step by exact Hx.
  pose proof (N.mod_lt x 10 ltac:(discriminate)) as Hmod.
  pose proof (N.div_mod x 10 ltac:(discriminate)) as Hdm.
  destruct (N.eq_dec (x / 10)%N 0%N) as [Hsmall|Hbig].
  - rewrite Hsmall, pretty_N_go_0. simpl.
    rewrite (digit_value_pretty _ Hmod). f_equal. lia.
  - rewrite IH; [|apply N.div_lt; lia|lia]. simpl.
    rewrite (digit_value_pretty _ Hmod). f_equal. lia.
Qed.

Lemma all_digits_pretty_go (x : N) :
  forall s : string, all_digits s = true -> all_digits (pretty_N_go x s) = true.
Proof.
  induction (N.lt_wf_0 x) as [x _ IH]. intros s Hs.
  destruct (N.eq_dec x 0%N) as [->|Hx]; [now rewrite pretty_N_go_0|].
  rewrite pretty_N_go_step by lia.
  apply IH; [apply N.div_lt; lia|]. simpl.
  rewrite (digit_value_pretty _ (N.mod_lt x 10 ltac:(discriminate))).
  exact Hs.
Qed.

Lemma all_digits_no_space (s : string) :
  all_digits s = true -> lstrip s = s /\ rstrip s = s.
Proof.
  assert (forall c d, digit_value c = Some d -> is_space c = false) as Hdigit.
  { intros c d Hc. unfold digit_value in Hc. unfold is_space.
    destruct ((48 <=? nat_of_ascii c)%nat && (nat_of_ascii c <=? 57)%nat)
      eqn:Hrange; [|discriminate].
    apply andb_true_iff in Hrange as [Hlow _]. apply Nat.leb_le in Hlow.
    apply orb_false_iff. split.
    - apply andb_false_iff. right. apply Nat.leb_gt. lia.
    - apply Nat.eqb_neq. lia. }
  intros Hs. split.
  - destruct s as [|c s]; [reflexivity|]. simpl in *.
    destruct (digit_value c) as [d|] eqn:Hc; [|discriminate].
    now rewrite (Hdigit c d Hc).
  - induction s as [|c s IH]; [reflexivity|]. simpl in *.
    destruct (digit_value c) as [d|] eqn:Hc; [|discriminate].
    rewrite (IH Hs), (Hdigit c d Hc). now destruct s.
Qed.

(** [int] reads back a proportion written in decimal. *)
Lemma int_of_str_pretty (p : N) : int_of_str (pretty p) = Return (Z.of_N p).
Proof.
  assert (all_digits (pretty p) = true /\
          int_digits 0 false (pretty p) = Some (Z.of_N p)) as [Hdigits Hvalue].
  { unfold pretty, pretty_N. destruct (decide (p = 0%N)) as [->|Hp].
    - split; reflexivity.
    - split; [now apply all_digits_pretty_go|].
      now rewrite int_digits_pretty_go by lia. }
  unfold int_of_str.
  destruct (all_digits_no_space _ Hdigits) as [-> ->].
  destruct (pretty p) as [|c body]; [discriminate|].
  simpl in Hdigits.
  destruct (digit_value c) as [d|] eqn:Hc; [|discriminate].
  destruct (Ascii.eqb_spec c "+") as [->|_]; [discriminate|].
  destruct (Ascii.eqb_spec c "-") as [->|_]; [discriminate|].
  now rewrite Hvalue.
Qed.

End DecimalFacts.

(** ** Claims about [create_model_rate_mapping] *)

Section ManagerClaims.

Context {Rate Gen : Type} `{!EqDecision Rate}.
Variable multinomial : list Z -> Z -> Z -> Gen -> outcome (list nat) * Gen.

Import utils.

(** C1.  In "fix" mode, when the proportions add up to more than
    [num_users], the count per unit of proportion is [0], no block is
    emitted, and the padding reads the last element of an empty list: with at
    least one user the call raises [IndexError] instead of returning
    [num_users] copies of the last level's rate. *)
Theorem fix_mode_too_few_users_raises (h : store Rate Gen)
    (mode_rate : list Rate) (proportion : list Z) (num_users : Z) :
  model_split_mode (self h) = "fix" ->
  read_levels (model_split_rate (self h)) (model_mode (self h)) [] []
    = Return (mode_rate, proportion) ->
  1 <= num_users < sum proportion ->
  create_model_rate_mapping multinomial num_users h = (Raise IndexError, h).
Proof.
  intros Hmode Hread Hn.
  assert (num_users / sum proportion = 0) as Hbase by (apply Z.div_small; lia).
  rewrite (fix_branch multinomial h mode_rate proportion num_users Hmode Hread).
  - rewrite Hbase, blocks_zero. unfold len. simpl.
    rewrite padding_empty by lia. reflexivity.
  - lia.
  - rewrite Hbase. apply Forall_forall. intros; lia.
Qed.

(** The blocks of a call with [k] times the sum of the proportions as
    [num_users], in terms of the levels as the first loop has read them. *)
Lemma blocks_of_parsed_levels (h : store Rate Gen)
    (mode_rate : list Rate) (proportion : list Z) (k : Z) :
  model_split_mode (self h) = "fix" ->
  read_levels (model_split_rate (self h)) (model_mode (self h)) [] []
    = Return (mode_rate, proportion) ->
  Forall (fun p => 0 <= p) proportion ->
  0 < sum proportion ->
  1 <= k ->
  create_model_rate_mapping multinomial (k * sum proportion) h
    = (Return (Some (blocks k mode_rate proportion)), h) /\
  len (blocks k mode_rate proportion) = k * sum proportion /\
  (NoDup mode_rate ->
   forall (i : nat) (rate : Rate) (p : Z),
     mode_rate !! i = Some rate -> proportion !! i = Some p ->
     len (filter (fun x => x = rate) (blocks k mode_rate proportion)) = k * p).
Proof.
  intros Hmode Hread Hpos Hsum Hk.
  pose proof (read_levels_length _ _ _ _ _ _ Hread eq_refl) as Hlen.
  assert (k * sum proportion / sum proportion = k) as Hbase
    by (apply Z.div_mul; lia).
  assert (Forall (fun p => 0 <= k * p) proportion) as Hcount.
  { eapply Forall_impl; [exact Hpos|]. intros p Hp. simpl in *. nia. }
  pose proof (blocks_len k mode_rate proportion Hlen Hcount) as Hblen.
  split; [|split].
  - rewrite (fix_branch multinomial h mode_rate proportion _ Hmode Hread);
      rewrite ?Hbase; [|lia|exact Hcount].
    rewrite Hblen, padding_nothing by lia. simpl. now rewrite app_nil_r.
  - exact Hblen.
  - intros Hnodup i rate p Hr Hp. unfold len.
    rewrite (blocks_count k mode_rate Hnodup proportion i rate p Hr Hp).
    apply Z2Nat.id.
    assert (p ∈ proportion) as Hin by (eapply list_elem_of_lookup_2; exact Hp).
    rewrite Forall_forall in Hcount. now apply Hcount.
Qed.

(** The first loop on tokens made of a letter and a proportion in decimal:
    it reads the catalogue rate of the letter and the number written. *)
Lemma read_levels_tokens (rates : gmap string Rate) (levels : list (ascii * N))
    (rates_of : list Rate) :
  Forall2 (fun lv rate => rates !! String (fst lv) EmptyString = Some rate)
    levels rates_of ->
  forall mode_rate proportion,
    read_levels rates (map (fun lv => token (fst lv) (snd lv)) levels)
      mode_rate proportion
    = Return (mode_rate ++ rates_of,
              proportion ++ map (fun lv => Z.of_N (snd lv)) levels).
Proof.
  induction 1 as [|[c p] rate levels rates_of Hrate _ IH]; intros mr pr.
  - simpl. now rewrite !app_nil_r.
  - cbn [map fst snd]. unfold token at 1.
    cbn [read_levels getitem0 obind]. simpl in Hrate. rewrite Hrate.
    cbn [slice_from1]. rewrite int_of_str_pretty. cbn [obind].
    rewrite IH. now rewrite <- !app_assoc.
Qed.

(** C4.  In "fix" mode, for a mode string whose tokens are each the letter
    of a catalogue level followed by its proportion written in decimal, with
    proportions of positive sum, [num_users = k * sum(proportion)] and
    [k >= 1], the call returns, in the order of the mode string, one block of
    [k * proportion[i]] copies of the catalogue rate of level [i] and nothing
    else; when the rates of the levels differ, exactly [k * proportion[i]]
    clients hold the rate of level [i]. *)
Theorem fix_mode_proportional_blocks (h : store Rate Gen)
    (levels : list (ascii * N)) (mode_rate : list Rate) (k : Z) :
  model_split_mode (self h) = "fix" ->
  model_mode (self h) = map (fun lv => token (fst lv) (snd lv)) levels ->
  Forall2
    (fun lv rate =>
       model_split_rate (self h) !! String (fst lv) EmptyString = Some rate)
    levels mode_rate ->
  0 < sum (map (fun lv => Z.of_N (snd lv)) levels) ->
  1 <= k ->
  let proportion := map (fun lv => Z.of_N (snd lv)) levels in
  create_model_rate_mapping multinomial (k * sum proportion) h
    = (Return (Some (blocks k mode_rate proportion)), h) /\
  len (blocks k mode_rate proportion) = k * sum proportion /\
  (NoDup mode_rate ->
   forall (i : nat) (rate : Rate) (p : Z),
     mode_rate !! i = Some rate -> proportion !! i = Some p ->
     len (filter (fun x => x = rate) (blocks k mode_rate proportion)) = k * p).
Proof.
  intros Hmode Htokens Hrates Hsum Hk proportion.
  apply blocks_of_parsed_levels; [exact Hmode| |
    |exact Hsum|exact Hk].
  - rewrite Htokens.
    now rewrite (read_levels_tokens _ levels mode_rate Hrates [] []).
  - subst proportion. apply Forall_forall. intros p Hp.
    apply list_elem_of_fmap in Hp as (lv & -> & _). lia.
Qed.

(** C5, as the code has it.  In "fix" mode with
    [0 < sum(proportion) <= num_users] (and no negative proportion, as for
    every manager built by [__init__]) the call returns exactly [num_users]
    rates: the proportional blocks, then a tail filled with the last rate
    emitted, which is the rate of the last level whose proportion is not
    zero, hence the rate of the final level whenever that level's proportion
    is positive. *)
Theorem fix_mode_padding (h : store Rate Gen)
    (mode_rate : list Rate) (proportion : list Z) (num_users : Z) :
  model_split_mode (self h) = "fix" ->
  read_levels (model_split_rate (self h)) (model_mode (self h)) [] []
    = Return (mode_rate, proportion) ->
  Forall (fun p => 0 <= p) proportion ->
  0 < sum proportion <= num_users ->
  exists rate : Rate,
    last_funded mode_rate proportion = Some rate /\
    create_model_rate_mapping multinomial num_users h
      = (Return
           (Some (blocks (num_users / sum proportion) mode_rate proportion
                  ++ replicate (Z.to_nat (num_users mod sum proportion)) rate)),
         h) /\
    len (blocks (num_users / sum proportion) mode_rate proportion
         ++ replicate (Z.to_nat (num_users mod sum proportion)) rate)
      = num_users /\
    (forall (final : Rate) (p : Z),
       last mode_rate = Some final -> last proportion = Some p -> 0 < p ->
       rate = final).
Proof.
  intros Hmode Hread Hpos [Hsum Hn].
  pose proof (read_levels_length _ _ _ _ _ _ Hread eq_refl) as Hlen.
  set (S := sum proportion) in *. set (k := num_users / S).
  assert (1 <= k) as Hk.
  { unfold k. apply Z.div_le_lower_bound; lia. }
  assert (Forall (fun p => 0 <= k * p) proportion) as Hcount.
  { eapply Forall_impl; [exact Hpos|]. intros p Hp. simpl in *. nia. }
  pose proof (blocks_len k mode_rate proportion Hlen Hcount) as Hblen.
  fold S in Hblen.
  pose proof (Z.div_mod num_users S ltac:(lia)) as Hdm. fold k in Hdm.
  pose proof (Z.mod_pos_bound num_users S Hsum) as Hmod.
  assert (is_Some (last (blocks k mode_rate proportion))) as [rate Hlast].
  { apply last_is_Some. intros Hnil. rewrite Hnil in Hblen.
    unfold len in Hblen. simpl in Hblen. nia. }
  exists rate. split; [|split; [|split]].
  - now rewrite <- (last_blocks k mode_rate Hk proportion Hpos).
  - rewrite (fix_branch multinomial h mode_rate proportion _ Hmode Hread);
      fold S; fold k; [|lia|exact Hcount].
    rewrite (padding_last _ _ rate Hlast). simpl.
    replace (num_users - len (blocks k mode_rate proportion))
      with (num_users mod S) by lia.
    reflexivity.
  - unfold len in *. rewrite length_app, length_replicate, Nat2Z.inj_add.
    rewrite Hblen, Z2Nat.id by lia. lia.
  - intros final p Hfinal Hp Hppos.
    rewrite (last_blocks k mode_rate Hk proportion Hpos) in Hlast.
    rewrite (last_funded_final mode_rate proportion final p Hlen Hfinal Hp Hppos)
      in Hlast.
    now inversion Hlast.
Qed.

(** C8.  With a split mode that is neither "fix" nor "dynamic" the call
    returns [None] for every [num_users], raises nothing and changes
    nothing. *)
Theorem unknown_split_mode_returns_None (h : store Rate Gen) (num_users : Z) :
  model_split_mode (self h) <> "fix" ->
  model_split_mode (self h) <> "dynamic" ->
  create_model_rate_mapping multinomial num_users h = (Return None, h).
Proof.
  intros Hfix Hdyn.
  apply String.eqb_neq in Hfix, Hdyn.
  unfold create_model_rate_mapping, bind, gets, ret. simpl.
  now rewrite Hfix, Hdyn.
Qed.

Lemma sample_keeps_self (proportion : list Z) (num_users : Z)
    (s : store Rate Gen) :
  self (snd (sample multinomial proportion num_users s)) = self s.
Proof. unfold sample. now destruct (multinomial _ _ _ _). Qed.

Lemma call_keeps_self (num_users : Z) (s : store Rate Gen) :
  self (snd (create_model_rate_mapping multinomial num_users s)) = self s.
Proof.
  revert s. unfold create_model_rate_mapping.
  apply (bind_keeps self); [reflexivity|]. intros split_mode.
  destruct (String.eqb split_mode "fix").
  - repeat (apply (bind_keeps self); [reflexivity|]; intros ?).
    destruct a1 as [mode_rate proportion].
    repeat (apply (bind_keeps self); [reflexivity|]; intros ?).
    reflexivity.
  - destruct (String.eqb split_mode "dynamic"); [|reflexivity].
    repeat (apply (bind_keeps self); [reflexivity|]; intros ?).
    destruct a1 as [mode_rate proportion].
    apply (bind_keeps self); [apply sample_keeps_self|]. intros ?.
    repeat (apply (bind_keeps self); [reflexivity|]; intros ?).
    reflexivity.
Qed.

(** C10.  A call of [create_model_rate_mapping] leaves the manager as it
    was, in "fix" mode, in "dynamic" mode and with an unknown mode, whether
    it returns or raises: [model_split_mode], [model_split_rate] and
    [model_mode] are the same after the call, and so after any number of
    calls. *)
Theorem create_model_rate_mapping_keeps_manager
    (h : store Rate Gen) (num_users : Z) (nums : list Z) :
  let h' := snd (create_model_rate_mapping multinomial num_users h) in
  model_split_mode (self h') = model_split_mode (self h) /\
  model_split_rate (self h') = model_split_rate (self h) /\
  model_mode (self h') = model_mode (self h) /\
  self (calls multinomial nums h) = self h.
Proof.
  simpl. rewrite call_keeps_self. repeat split.
  revert h. unfold calls.
  induction nums as [|n nums IH]; intros h; [reflexivity|].
  simpl. rewrite IH. apply call_keeps_self.
Qed.

End ManagerClaims.

(** The failing call of C1: catalogue [{"a": 1.0, "b": 0.5}], mode "a1-b1",
    one user. *)
Lemma fix_mode_too_few_users_raises_witness :
  utils.create_model_rate_mapping Demo.first_level 1 (Demo.manager "fix" "a1-b1")
  = (Raise IndexError, Demo.manager "fix" "a1-b1").
Proof.
  apply (fix_mode_too_few_users_raises Demo.first_level
           (Demo.manager "fix" "a1-b1") [Demo.one; Demo.half] [1; 1] 1).
  - reflexivity.
  - vm_compute. reflexivity.
  - vm_compute. split; [discriminate|reflexivity].
Defined.

(** The example of C4: catalogue [{"a": 1.0, "b": 0.5}], mode "a1-b1" and
    ten users give five clients at [1.0], then five at [0.5]; mode "a2-b1"
    and six users give four clients at [1.0], then two at [0.5]. *)
Lemma fix_mode_proportional_blocks_witness :
  utils.create_model_rate_mapping Demo.first_level 10 (Demo.manager "fix" "a1-b1")
  = (Return (Some [Demo.one; Demo.one; Demo.one; Demo.one; Demo.one;
                   Demo.half; Demo.half; Demo.half; Demo.half; Demo.half]),
     Demo.manager "fix" "a1-b1") /\
  utils.create_model_rate_mapping Demo.first_level 6 (Demo.manager "fix" "a2-b1")
  = (Return (Some [Demo.one; Demo.one; Demo.one; Demo.one;
                   Demo.half; Demo.half]),
     Demo.manager "fix" "a2-b1").
Proof.
  split.
  - refine (proj1 (fix_mode_proportional_blocks Demo.first_level
                     (Demo.manager "fix" "a1-b1")
                     [("a"%char, 1%N); ("b"%char, 1%N)] [Demo.one; Demo.half] 5
                     _ _ _ _ _)).
    + reflexivity.
    + vm_compute. reflexivity.
    + repeat constructor.
    + reflexivity.
    + discriminate.
  - refine (proj1 (fix_mode_proportional_blocks Demo.first_level
                     (Demo.manager "fix" "a2-b1")
                     [("a"%char, 2%N); ("b"%char, 1%N)] [Demo.one; Demo.half] 2
                     _ _ _ _ _)).
    + reflexivity.
    + vm_compute. reflexivity.
    + repeat constructor.
    + reflexivity.
    + discriminate.
Defined.

(** C5 as stated fails: with mode "a2-b0" and three users the padded third
    client gets [1.0], the rate of level "a", and not [0.5], the rate of the
    final level "b". *)
Lemma padding_is_not_the_final_level_rate :
  ~ utils.pads_with_final_level Demo.first_level (Demo.manager "fix" "a2-b0") 3.
Proof.
  intros Hclaim.
  destruct (Hclaim [Demo.one; Demo.half] [2; 0] Demo.half)
    as (l & Hl & _ & Htail);
    [reflexivity|vm_compute; reflexivity|vm_compute; discriminate|reflexivity|].
  vm_compute in Hl. inversion Hl; subst l.
  specialize (Htail 2%nat). vm_compute in Htail.
  assert (Some Demo.one = Some Demo.half) as Habs by (apply Htail; split; lia).
  discriminate Habs.
Qed.

(** Seven users on "a2-b1": two blocks of four and two, and one padded
    client at the rate of "b". *)
Lemma fix_mode_padding_witness :
  utils.create_model_rate_mapping Demo.first_level 7 (Demo.manager "fix" "a2-b1")
  = (Return (Some [Demo.one; Demo.one; Demo.one; Demo.one;
                   Demo.half; Demo.half; Demo.half]),
     Demo.manager "fix" "a2-b1").
Proof.
  destruct (fix_mode_padding Demo.first_level
              (Demo.manager "fix" "a2-b1") [Demo.one; Demo.half] [2; 1] 7)
    as (rate & Hrate & Hcall & _).
  - reflexivity.
  - vm_compute. reflexivity.
  - repeat constructor; discriminate.
  - vm_compute. split; [reflexivity|discriminate].
  - vm_compute in Hrate. inversion Hrate; subst rate. exact Hcall.
Defined.

Lemma unknown_split_mode_returns_None_witness :
  utils.create_model_rate_mapping Demo.first_level 10
    (Demo.manager "bogus" "a1-b1")
  = (Return None, Demo.manager "bogus" "a1-b1").
Proof.
  apply (unknown_split_mode_returns_None Demo.first_level
           (Demo.manager "bogus" "a1-b1") 10); discriminate.
Defined.

(** ** The evaluation callback *)

Section EvaluateFacts.

Context {NDArray Tensor Batch Labels Scalar Config : Type}.
Variable torch_Tensor : NDArray -> Tensor.
Variable shape : Tensor -> list nat.
Variable of_int : Z -> Scalar.
Variable add : Scalar -> Scalar -> Scalar.
Variable forward : server.Module_ Tensor -> Batch -> server.Module_ Tensor.
Variable test :
  server.Module_ Tensor -> list Batch -> option Labels
  -> (Scalar * Scalar) * server.Module_ Tensor.
Variable type_int : Labels -> Labels.
Variable load_residue :
  server.Module_ Tensor -> list (string * Tensor) -> server.Module_ Tensor.
Variable output_dir : string.

Import server.

Local Abbreviation evaluate :=
  (server.evaluate (Config := Config) torch_Tensor shape of_int add forward
     test type_int load_residue output_dir).
Local Abbreviation load_state_dict := (server.load_state_dict shape load_residue).
Local Abbreviation test_clients := (server.test_clients add test type_int).
Local Abbreviation client_results := (server.client_results test type_int).
Local Abbreviation after_clients := (server.after_clients test type_int).
Local Abbreviation warmed := (server.warmed forward).
Local Abbreviation received := (server.received torch_Tensor).
Local Abbreviation total := (server.total of_int add).

Lemma forward_all_run (loader : list Batch) :
  forall w : world Tensor,
    forward_all forward loader w
    = (Return tt, set_net (fold_left forward loader (net w)) w).
Proof.
  induction loader as [|batch rest IH]; intros w.
  - now destruct w.
  - simpl. unfold bind, modify. rewrite IH. now destruct w.
Qed.

(** The loop over the clients when every client has its label subset. *)
Lemma test_clients_run (dl : data_loaders Batch Labels)
    (loaders : list (list Batch)) :
  forall (i : nat) (loss accuracy : Scalar) (w : world Tensor),
    (i + length loaders <= length (label_split dl))%nat ->
    test_clients dl i loaders loss accuracy w
    = (Return
         (fold_left add
            (map fst (client_results (net w) loaders (drop i (label_split dl))))
            loss,
          fold_left add
            (map snd (client_results (net w) loaders (drop i (label_split dl))))
            accuracy),
       {| net := after_clients (net w) loaders (drop i (label_split dl));
          disk := disk w;
          iterated := iterated w ++ map Valloader (seq i (length loaders)) |}).
Proof.
  induction loaders as [|clnt_tstldr rest IH]; intros i loss accuracy w Hlen.
  - simpl. unfold ret. destruct (drop i (label_split dl));
      rewrite app_nil_r; now destruct w.
  - simpl in Hlen.
    destruct (lookup_lt_is_Some_2 (label_split dl) i ltac:(lia)) as [l Hl].
    simpl server.test_clients. unfold bind, lift, getitem. rewrite Hl.
    rewrite (drop_S _ _ _ Hl). simpl.
    unfold run_test. simpl.
    destruct (test (net w) clnt_tstldr (Some (type_int l))) as [res n'].
    rewrite IH by lia. simpl. now rewrite <- app_assoc.
Qed.

(** The loop over the clients when a label subset is missing. *)
Lemma test_clients_raises (dl : data_loaders Batch Labels)
    (loaders : list (list Batch)) :
  forall (i : nat) (loss accuracy : Scalar) (w : world Tensor),
    (i <= length (label_split dl) < i + length loaders)%nat ->
    exists w', test_clients dl i loaders loss accuracy w = (Raise IndexError, w').
Proof.
  induction loaders as [|clnt_tstldr rest IH]; intros i loss accuracy w Hlen.
  - simpl in Hlen. lia.
  - simpl server.test_clients. unfold bind, lift, getitem.
    destruct (label_split dl !! i) as [l|] eqn:Hl; [|eexists; reflexivity].
    simpl. unfold run_test. simpl.
    destruct (test (net w) clnt_tstldr (Some (type_int l))) as [res n'].
    apply lookup_lt_Some in Hl.
    apply IH. simpl in Hlen. lia.
Qed.

Lemma load_state_dict_frame (state_dict : list (string * Tensor))
    (w w1 : world Tensor) (o : outcome unit) :
  load_state_dict state_dict w = (o, w1) ->
  disk w1 = disk w /\ iterated w1 = iterated w.
Proof.
  unfold server.load_state_dict. intros Hload.
  destruct (_ || _); inversion Hload; subst; now split.
Qed.

Lemma skipped_spec (server_round : Z) :
  skipped server_round = true <-> server_round mod 5 <> 0 /\ server_round < 395.
Proof.
  unfold skipped. rewrite andb_true_iff, negb_true_iff, Z.eqb_neq, Z.ltb_lt.
  reflexivity.
Qed.

(** A qualifying round whose load raises stops there. *)
Lemma evaluate_load_raises (dl : data_loaders Batch Labels) (server_round : Z)
    (parameters_ndarrays : list NDArray) (config : Config)
    (w w1 : world Tensor) (e : exn) :
  skipped server_round = false ->
  load_state_dict (received (net w) parameters_ndarrays) w = (Raise e, w1) ->
  evaluate dl server_round parameters_ndarrays config w = (Raise e, w1).
Proof.
  intros Hskip Hload. unfold server.evaluate. rewrite Hskip.
  unfold bind at 1. unfold gets. unfold bind at 1.
  unfold server.received in Hload. now rewrite Hload.
Qed.

Lemma checkpoint_step (server_round : Z) (w1 : world Tensor) :
  (if server_round mod 100 =? 0
   then save output_dir (checkpoint_name server_round) else ret tt) w1
  = (Return tt, checkpointed output_dir server_round w1).
Proof. unfold checkpointed. now destruct (server_round mod 100 =? 0). Qed.

(** A qualifying round whose load succeeds and whose clients all have a
    label subset runs to the end. *)
Lemma evaluate_full (dl : data_loaders Batch Labels) (server_round : Z)
    (parameters_ndarrays : list NDArray) (config : Config)
    (w w1 : world Tensor) :
  skipped server_round = false ->
  load_state_dict (received (net w) parameters_ndarrays) w = (Return tt, w1) ->
  (length (valloaders dl) <= length (label_split dl))%nat ->
  evaluate dl server_round parameters_ndarrays config w
  = let n2 := warmed (net w1) (entire_trainloader dl) in
    let results := client_results n2 (valloaders dl) (label_split dl) in
    let g :=
      test (after_clients n2 (valloaders dl) (label_split dl))
        (testloader dl) None in
    (Return (fst (fst g),
             [("global_accuracy", snd (fst g));
              ("local_loss", total (map fst results));
              ("local_accuracy", total (map snd results))]),
     {| net := snd g;
        disk := disk (checkpointed output_dir server_round w1);
        iterated := iterated w1 ++ full_pass dl |}).
Proof.
  intros Hskip Hload Hlen. unfold server.evaluate. rewrite Hskip.
  unfold bind at 1. unfold gets. unfold bind at 1.
  unfold server.received in Hload. rewrite Hload.
  unfold bind at 1. rewrite checkpoint_step.
  assert (net (checkpointed output_dir server_round w1) = net w1) as Hnet
    by (unfold checkpointed; now destruct (_ =? _)).
  assert (iterated (checkpointed output_dir server_round w1) = iterated w1)
    as Hit by (unfold checkpointed; now destruct (_ =? _)).
  set (w2 := checkpointed output_dir server_round w1) in *.
  unfold bind at 1. unfold train at 1. unfold modify at 1.
  unfold bind at 1. unfold iterate at 1. unfold modify at 1.
  unfold bind at 1. rewrite forward_all_run.
  unfold bind at 1. rewrite test_clients_run by (simpl; lia).
  unfold bind at 1. unfold iterate at 1. unfold modify at 1.
  unfold bind at 1. unfold run_test. simpl.
  rewrite Hnet, Hit. unfold server.warmed, server.total, full_pass.
  destruct (test _ (testloader dl) None) as [[gl ga] n3]. simpl.
  unfold ret, set_net. simpl. rewrite <- !app_assoc. reflexivity.
Qed.

Lemma forward_all_keeps_disk (loader : list Batch) (w : world Tensor) :
  disk (snd (forward_all forward loader w)) = disk w.
Proof. rewrite forward_all_run. reflexivity. Qed.

Lemma run_test_keeps_disk (loader : list Batch) (labels : option Labels)
    (w : world Tensor) :
  disk (snd (run_test test loader labels w)) = disk w.
Proof. unfold run_test. now destruct (test _ _ _). Qed.

Lemma test_clients_keeps_disk (dl : data_loaders Batch Labels)
    (loaders : list (list Batch)) :
  forall (i : nat) (loss accuracy : Scalar) (w : world Tensor),
    disk (snd (test_clients dl i loaders loss accuracy w)) = disk w.
Proof.
  induction loaders as [|clnt_tstldr rest IH]; intros i loss accuracy;
    [reflexivity|].
  simpl server.test_clients.
  apply (bind_keeps disk); [reflexivity|]. intros labels.
  apply (bind_keeps disk); [reflexivity|]. intros _.
  apply (bind_keeps disk); [apply run_test_keeps_disk|]. intros res.
  apply IH.
Qed.

(** The files after a call: only the checkpoint step writes. *)
Lemma evaluate_disk (dl : data_loaders Batch Labels) (server_round : Z)
    (parameters_ndarrays : list NDArray) (config : Config) (w : world Tensor) :
  disk (snd (evaluate dl server_round parameters_ndarrays config w))
  = if skipped server_round then disk w
    else match load_state_dict (received (net w) parameters_ndarrays) w with
         | (Return _, w1) => disk (checkpointed output_dir server_round w1)
         | (Raise _, _) => disk w
         end.
Proof.
  unfold server.evaluate. destruct (skipped server_round); [reflexivity|].
  unfold bind at 1. unfold gets. unfold bind at 1. unfold server.received.
  destruct (load_state_dict _ w) as [[[]|e] w1] eqn:Hload.
  - rewrite (bind_proj disk).
    + unfold checkpointed. now destruct (server_round mod 100 =? 0).
    + intros _.
      apply (bind_keeps disk); [reflexivity|]. intros _.
      apply (bind_keeps disk); [reflexivity|]. intros _.
      apply (bind_keeps disk); [apply forward_all_keeps_disk|]. intros _.
      apply (bind_keeps disk); [apply test_clients_keeps_disk|]. intros local.
      apply (bind_keeps disk); [reflexivity|]. intros _.
      apply (bind_keeps disk); [apply run_test_keeps_disk|]. intros g.
      reflexivity.
  - simpl. now apply load_state_dict_frame in Hload.
Qed.

(** A qualifying round raises, or runs to the end. *)
Lemma evaluate_cases (dl : data_loaders Batch Labels) (server_round : Z)
    (parameters_ndarrays : list NDArray) (config : Config) (w : world Tensor) :
  skipped server_round = false ->
  (exists e w',
     evaluate dl server_round parameters_ndarrays config w = (Raise e, w')) \/
  (exists w1,
     load_state_dict (received (net w) parameters_ndarrays) w = (Return tt, w1) /\
     (length (valloaders dl) <= length (label_split dl))%nat).
Proof.
  intros Hskip.
  destruct (load_state_dict (received (net w) parameters_ndarrays) w)
    as [[[]|e] w1] eqn:Hload.
  - destruct (le_lt_dec (length (valloaders dl)) (length (label_split dl)))
      as [Hlen|Hlen]; [right; eauto|left].
    unfold server.evaluate. rewrite Hskip.
    unfold bind at 1. unfold gets. unfold bind at 1.
    unfold server.received in Hload. rewrite Hload.
    unfold bind at 1. rewrite checkpoint_step.
    unfold bind at 1. unfold train at 1. unfold modify at 1.
    unfold bind at 1. unfold iterate at 1. unfold modify at 1.
    unfold bind at 1. rewrite forward_all_run.
    unfold bind at 1.
    match goal with
    | |- context [server.test_clients _ _ _ dl 0%nat ?ls ?a ?b ?w0] =>
        destruct (test_clients_raises dl ls 0%nat a b w0 ltac:(simpl; lia))
          as [w' ->]
    end.
    eauto.
  - left. exists e, w1. now apply evaluate_load_raises.
Qed.

(** The keys a dictionary built from pairs has. *)
Lemma dict_get_set {V : Type} (k k' : string) (v : V) (d : list (string * V)) :
  dict_get k (dict_set k' v d)
  = if String.eqb k' k then Some v else dict_get k d.
Proof.
  induction d as [|[k0 v0] d IH]; simpl; [reflexivity|].
  destruct (String.eqb_spec k0 k') as [->|Hne]; simpl.
  - now destruct (String.eqb_spec k' k).
  - rewrite IH. destruct (String.eqb_spec k0 k) as [->|_]; [|reflexivity].
    destruct (String.eqb_spec k' k) as [->|_]; [contradiction|reflexivity].
Qed.

Lemma has_key_fold {V : Type} (k : string) (pairs : list (string * V)) :
  forall d : list (string * V),
    has_key k (fold_left (fun d kv => dict_set (fst kv) (snd kv) d) pairs d) = true
    <-> has_key k d = true \/ k ∈ map fst pairs.
Proof.
  induction pairs as [|[k' v] pairs IH]; intros d; simpl.
  - split; [now left|]. intros [H|H]; [exact H|]. now apply elem_of_nil in H.
  - rewrite IH. unfold has_key at 1. rewrite dict_get_set. rewrite elem_of_cons.
    destruct (String.eqb_spec k' k) as [->|Hne]; unfold has_key.
    + split; [intros _; right; now left|intros _; now left].
    + split; [intros [H|H]; [now left|right; now right]|].
      intros [H|[->|H]]; [now left|contradiction|now right].
Qed.

Lemma has_key_dict_of_pairs {V : Type} (k : string) (pairs : list (string * V)) :
  has_key k (dict_of_pairs pairs) = true <-> k ∈ map fst pairs.
Proof.
  unfold dict_of_pairs. rewrite has_key_fold. unfold has_key. simpl.
  split; [intros [H|H]; [discriminate|exact H]|now right].
Qed.

Lemma received_keys (n : Module_ Tensor) (parameters_ndarrays : list NDArray)
    (k : string) :
  has_key k (received n parameters_ndarrays) = true
  <-> k ∈ take (length parameters_ndarrays) (map fst (state n)).
Proof.
  unfold server.received. rewrite has_key_dict_of_pairs, map_map. simpl.
  assert (forall (l : list string) (ps : list NDArray),
            map (fun kv : string * NDArray => fst kv) (zip l ps)
            = take (length ps) l) as ->; [|reflexivity].
  induction l as [|x l IH]; intros [|p ps]; simpl; try reflexivity.
  now rewrite IH.
Qed.

(** Too few arrays: the strict load finds a missing key. *)
Lemma load_state_dict_short (parameters_ndarrays : list NDArray)
    (w : world Tensor) :
  NoDup (map fst (state (net w))) ->
  (length parameters_ndarrays < length (state (net w)))%nat ->
  load_state_dict (received (net w) parameters_ndarrays) w
  = (Raise RuntimeError,
     set_net (load_residue (net w) (received (net w) parameters_ndarrays)) w).
Proof.
  intros Hnodup Hlen. unfold server.load_state_dict.
  destruct (lookup_lt_is_Some_2 (state (net w)) (length parameters_ndarrays) Hlen)
    as [[k t] Hkt].
  assert (existsb
            (fun kv => negb (has_key (fst kv)
                               (received (net w) parameters_ndarrays)))
            (state (net w)) = true) as ->; [|reflexivity].
  apply existsb_exists. exists (k, t). split.
  - apply list_elem_of_In. eapply list_elem_of_lookup_2. exact Hkt.
  - apply negb_true_iff, not_true_iff_false. rewrite received_keys. simpl.
    intros Hin. apply elem_of_take in Hin as (i & Hi & Hlt).
    assert (map fst (state (net w)) !! length parameters_ndarrays = Some k) as Hk
      by (rewrite list_lookup_fmap, Hkt; reflexivity).
    pose proof (NoDup_lookup _ _ _ _ Hnodup Hi Hk). lia.
Qed.

End EvaluateFacts.

(** ** Claims about [evaluate] *)

Section EvaluateClaims.

Context {NDArray Tensor Batch Labels Scalar Config : Type}.
Variable torch_Tensor : NDArray -> Tensor.
Variable shape : Tensor -> list nat.
Variable of_int : Z -> Scalar.
Variable add : Scalar -> Scalar -> Scalar.
Variable forward : server.Module_ Tensor -> Batch -> server.Module_ Tensor.
Variable test :
  server.Module_ Tensor -> list Batch -> option Labels
  -> (Scalar * Scalar) * server.Module_ Tensor.
Variable type_int : Labels -> Labels.
Variable load_residue :
  server.Module_ Tensor -> list (string * Tensor) -> server.Module_ Tensor.
Variable output_dir : string.

Import server.

Local Abbreviation evaluate :=
  (server.evaluate (Config := Config) torch_Tensor shape of_int add forward
     test type_int load_residue output_dir).
Local Abbreviation load_state_dict := (server.load_state_dict shape load_residue).
Local Abbreviation client_results := (server.client_results test type_int).
Local Abbreviation after_clients := (server.after_clients test type_int).
Local Abbreviation warmed := (server.warmed forward).
Local Abbreviation received := (server.received torch_Tensor).
Local Abbreviation total := (server.total of_int add).

(** C2, as the code has it.  On a qualifying round, a parameter sequence
    shorter than the model's parameter count makes [evaluate] raise at the
    load: no metrics are returned, no file is written and no loader is
    iterated.  Arrays beyond the model's parameter count are dropped by
    [zip], so a longer sequence is treated like its prefix and is not
    rejected for its length. *)
Theorem short_parameters_raise (dl : data_loaders Batch Labels)
    (server_round : Z) (parameters_ndarrays : list NDArray) (config : Config)
    (w : world Tensor) :
  skipped server_round = false ->
  NoDup (map fst (state (net w))) ->
  (length parameters_ndarrays < length (state (net w)))%nat ->
  evaluate dl server_round parameters_ndarrays config w
    = (Raise RuntimeError,
       {| net := load_residue (net w) (received (net w) parameters_ndarrays);
          disk := disk w;
          iterated := iterated w |}) /\
  (forall longer : list NDArray,
     evaluate dl server_round longer config w
     = evaluate dl server_round (take (length (state (net w))) longer) config w).
Proof.
  intros Hskip Hnodup Hlen. split.
  - apply evaluate_load_raises; [exact Hskip|].
    now apply load_state_dict_short.
  - intros longer. unfold server.evaluate.
    destruct (skipped server_round); [reflexivity|].
    unfold bind, gets.
    rewrite <- (length_map fst (state (net w))).
    now rewrite zip_with_take_r.
Qed.

(** C3.  [evaluate] returns the placeholder [(1, {})] exactly on the rounds
    with [server_round % 5 != 0] and [server_round < 395], and then leaves the
    model, the files and every loader alone.  On every other round it runs
    the full pass: it loads the arrays (and raises what the load raises); once
    they are loaded, with a label subset for every client, it returns the
    loss and the accuracy that [test] gives on the global test loader and the
    sums of what [test] gives on every client loader, computed on the model
    that the pass over the whole training set has left, after iterating the
    training set, every client loader and the global loader in this order;
    and whenever it returns, it has done so. *)
Theorem evaluate_gating (dl : data_loaders Batch Labels) (server_round : Z)
    (parameters_ndarrays : list NDArray) (config : Config) (w : world Tensor) :
  (fst (evaluate dl server_round parameters_ndarrays config w)
     = Return (of_int 1, [])
   <-> server_round mod 5 <> 0 /\ server_round < 395) /\
  (server_round mod 5 <> 0 /\ server_round < 395 ->
   snd (evaluate dl server_round parameters_ndarrays config w) = w) /\
  (~ (server_round mod 5 <> 0 /\ server_round < 395) ->
   (forall e w1,
      load_state_dict (received (net w) parameters_ndarrays) w = (Raise e, w1) ->
      evaluate dl server_round parameters_ndarrays config w = (Raise e, w1)) /\
   (forall w1,
      load_state_dict (received (net w) parameters_ndarrays) w
        = (Return tt, w1) ->
      (length (valloaders dl) <= length (label_split dl))%nat ->
      let n2 := warmed (net w1) (entire_trainloader dl) in
      let results := client_results n2 (valloaders dl) (label_split dl) in
      let g :=
        test (after_clients n2 (valloaders dl) (label_split dl))
          (testloader dl) None in
      evaluate dl server_round parameters_ndarrays config w
      = (Return (fst (fst g),
                 [("global_accuracy", snd (fst g));
                  ("local_loss", total (map fst results));
                  ("local_accuracy", total (map snd results))]),
         {| net := snd g;
            disk := disk (checkpointed output_dir server_round w1);
            iterated := iterated w ++ full_pass dl |})) /\
   (forall v w',
      evaluate dl server_round parameters_ndarrays config w = (Return v, w') ->
      map fst (snd v) = ["global_accuracy"; "local_loss"; "local_accuracy"] /\
      iterated w' = iterated w ++ full_pass dl)).
Proof.
  rewrite <- skipped_spec.
  assert (skipped server_round = false ->
          forall w1,
            load_state_dict (received (net w) parameters_ndarrays) w
              = (Return tt, w1) ->
            (length (valloaders dl) <= length (label_split dl))%nat ->
            let n2 := warmed (net w1) (entire_trainloader dl) in
            let results := client_results n2 (valloaders dl) (label_split dl) in
            let g :=
              test (after_clients n2 (valloaders dl) (label_split dl))
                (testloader dl) None in
            evaluate dl server_round parameters_ndarrays config w
            = (Return (fst (fst g),
                       [("global_accuracy", snd (fst g));
                        ("local_loss", total (map fst results));
                        ("local_accuracy", total (map snd results))]),
               {| net := snd g;
                  disk := disk (checkpointed output_dir server_round w1);
                  iterated := iterated w ++ full_pass dl |})) as Hpass.
  { intros Hskip w1 Hload Hlen.
    rewrite (evaluate_full torch_Tensor shape of_int add forward test type_int
               load_residue output_dir dl server_round parameters_ndarrays
               config w w1 Hskip Hload Hlen).
    apply load_state_dict_frame in Hload as [_ Hit].
    simpl. now rewrite Hit. }
  assert (skipped server_round = false ->
          forall v w',
            evaluate dl server_round parameters_ndarrays config w
              = (Return v, w') ->
            map fst (snd v) = ["global_accuracy"; "local_loss"; "local_accuracy"]
            /\ iterated w' = iterated w ++ full_pass dl) as Hfull.
  { intros Hskip v w' Hrun.
    destruct (evaluate_cases torch_Tensor shape of_int add forward test type_int
                load_residue output_dir dl server_round parameters_ndarrays
                config w Hskip) as [(e & w'' & Hraise)|(w1 & Hload & Hlen)].
    - rewrite Hraise in Hrun. discriminate.
    - rewrite (Hpass Hskip w1 Hload Hlen) in Hrun.
      simpl in Hrun. inversion Hrun; subst. simpl. now split. }
  split; [split|split].
  - intros Hret. destruct (skipped server_round) eqn:Hskip; [reflexivity|].
    specialize (Hfull eq_refl).
    destruct (evaluate dl server_round parameters_ndarrays config w) as [o w'].
    simpl in Hret. subst o.
    destruct (Hfull _ _ eq_refl) as [Hkeys _]. discriminate Hkeys.
  - intros Hskip. unfold server.evaluate. now rewrite Hskip.
  - intros Hskip. unfold server.evaluate. now rewrite Hskip.
  - intros Hskip.
    assert (skipped server_round = false) as Hrun
      by now destruct (skipped server_round).
    split; [|split].
    + intros e w1 Hload. now apply evaluate_load_raises.
    + now apply Hpass.
    + now apply Hfull.
Qed.

(** C6.  A call writes a checkpoint only on a round that is a multiple of
    one hundred; on such a round (which always qualifies) a call whose load
    succeeds writes exactly one file, below the output directory, holding the
    loaded weights, and its name is a function of the round number that
    tells rounds apart. *)
Theorem checkpoint_cadence (dl : data_loaders Batch Labels) (server_round : Z)
    (parameters_ndarrays : list NDArray) (config : Config) (w : world Tensor) :
  (server_round mod 100 <> 0 ->
   disk (snd (evaluate dl server_round parameters_ndarrays config w)) = disk w) /\
  (server_round mod 100 = 0 ->
   skipped server_round = false /\
   forall w1,
     load_state_dict (received (net w) parameters_ndarrays) w = (Return tt, w1) ->
     disk (snd (evaluate dl server_round parameters_ndarrays config w))
     = disk w ++ [{| utils.parent := output_dir;
                     utils.name := checkpoint_name server_round;
                     utils.content := state (net w1) |}]) /\
  (forall other : Z,
     checkpoint_name other = checkpoint_name server_round ->
     other = server_round).
Proof.
  split; [|split].
  - intros Hmod. rewrite evaluate_disk.
    destruct (skipped server_round); [reflexivity|].
    destruct (load_state_dict _ w) as [[[]|e] w1] eqn:Hload; [|reflexivity].
    apply load_state_dict_frame in Hload as [Hdisk _].
    unfold checkpointed. apply Z.eqb_neq in Hmod. now rewrite Hmod.
  - intros Hmod.
    assert (skipped server_round = false) as Hskip.
    { assert (server_round mod 5 = 0) as H5.
      { pose proof (Z.div_mod server_round 100 ltac:(lia)) as Hdm.
        rewrite Hmod in Hdm.
        replace server_round with (20 * (server_round / 100) * 5) by lia.
        apply Z_mod_mult. }
      unfold skipped. now rewrite H5. }
    split; [exact Hskip|]. intros w1 Hload.
    rewrite evaluate_disk, Hskip, Hload.
    apply load_state_dict_frame in Hload as [Hdisk _].
    unfold checkpointed, utils.save_model.
    apply Z.eqb_eq in Hmod. rewrite Hmod. simpl. now rewrite Hdisk.
  - intros other Hname. unfold checkpoint_name in Hname.
    apply (inj (String.app "model_after_round_")) in Hname.
    apply string_app_inj_r in Hname. now apply (inj pretty).
Qed.

(** C7.  On a qualifying round whose load succeeds and whose clients all
    have a label subset, [evaluate] returns the global loss and the
    dictionary of the global accuracy and of the two local metrics, where each
    local metric is the sum, from the left and starting at [0], of the
    corresponding results of [test] on the client loaders, one per client,
    without any division, and the global pair comes from the one call of
    [test] on the global test loader, made last. *)
Theorem evaluate_returns_sums (dl : data_loaders Batch Labels)
    (server_round : Z) (parameters_ndarrays : list NDArray) (config : Config)
    (w w1 : world Tensor) :
  skipped server_round = false ->
  load_state_dict (received (net w) parameters_ndarrays) w = (Return tt, w1) ->
  (length (valloaders dl) <= length (label_split dl))%nat ->
  let n2 := warmed (net w1) (entire_trainloader dl) in
  let results := client_results n2 (valloaders dl) (label_split dl) in
  let g :=
    test (after_clients n2 (valloaders dl) (label_split dl))
      (testloader dl) None in
  evaluate dl server_round parameters_ndarrays config w
    = (Return (fst (fst g),
               [("global_accuracy", snd (fst g));
                ("local_loss", total (map fst results));
                ("local_accuracy", total (map snd results))]),
       {| net := snd g;
          disk := disk (checkpointed output_dir server_round w1);
          iterated := iterated w ++ full_pass dl |}) /\
  length results = length (valloaders dl).
Proof.
  intros Hskip Hload Hlen n2 results g. split.
  - rewrite (evaluate_full torch_Tensor shape of_int add forward test type_int
               load_residue output_dir dl server_round parameters_ndarrays
               config w w1 Hskip Hload Hlen).
    apply load_state_dict_frame in Hload as [_ Hit].
    simpl. now rewrite Hit.
  - subst results. generalize n2. revert Hlen.
    generalize (label_split dl). generalize (valloaders dl).
    induction l as [|clnt_tstldr rest IH]; intros [|lab labs] Hlen n;
      simpl in *; try reflexivity; try lia.
    destruct (test n clnt_tstldr (Some (type_int lab))) as [res n'].
    simpl. rewrite IH by lia. reflexivity.
Qed.

(** C9.  On a qualifying round whose load succeeds, an empty list of client
    test loaders raises nothing: the loop over the clients does not run, the
    two local metrics are the initial [0], and the global test is still made,
    on the model as the pass over the training set left it. *)
Theorem evaluate_without_clients (dl : data_loaders Batch Labels)
    (server_round : Z) (parameters_ndarrays : list NDArray) (config : Config)
    (w w1 : world Tensor) :
  skipped server_round = false ->
  load_state_dict (received (net w) parameters_ndarrays) w = (Return tt, w1) ->
  valloaders dl = [] ->
  let g := test (warmed (net w1) (entire_trainloader dl)) (testloader dl) None in
  evaluate dl server_round parameters_ndarrays config w
    = (Return (fst (fst g),
               [("global_accuracy", snd (fst g));
                ("local_loss", of_int 0);
                ("local_accuracy", of_int 0)]),
       {| net := snd g;
          disk := disk (checkpointed output_dir server_round w1);
          iterated := iterated w ++ [Entire_trainloader; Testloader] |}).
Proof.
  intros Hskip Hload Hnone g.
  rewrite (evaluate_full torch_Tensor shape of_int add forward test type_int
             load_residue output_dir dl server_round parameters_ndarrays
             config w w1 Hskip Hload); [|rewrite Hnone; simpl; lia].
  apply load_state_dict_frame in Hload as [_ Hit].
  subst g. unfold full_pass. rewrite Hnone, Hit. reflexivity.
Qed.

End EvaluateClaims.

(** ** The claims about [evaluate] on the example model *)

(** C2 as stated fails: on round 10, three arrays for a model of two
    parameters are accepted, the third array is ignored and the metrics are
    returned. *)
Lemma longer_parameters_are_accepted :
  ~ Demo.rejects_length_mismatch Demo.loaders 10 [[1; 2]; [3]; [4]] tt Demo.fresh.
Proof.
  intros Hclaim.
  destruct Hclaim as (e & w' & Hrun); [reflexivity|simpl; lia|].
  vm_compute in Hrun. discriminate Hrun.
Qed.

(** Round 10 with one array for a model of two parameters: nothing is
    written and no loader is iterated; the state the failed load leaves in
    the model is left open. *)
Lemma short_parameters_raise_witness :
  exists n,
    Demo.evaluate Demo.loaders 10 [[1; 2]] tt Demo.fresh
    = (Raise RuntimeError,
       {| server.net := n; server.disk := []; server.iterated := [] |}).
Proof.
  eexists.
  refine (proj1 (short_parameters_raise (Config := unit) Demo.torch_Tensor
                   Demo.shape (fun z : Z => z) Z.add Demo.forward Demo.test
                   Demo.type_int Demo.load_residue "outputs" Demo.loaders 10
                   [[1; 2]] tt Demo.fresh _ _ _)).
  - reflexivity.
  - simpl. apply NoDup_cons. split; [|apply NoDup_singleton].
    intros Hin. apply list_elem_of_singleton in Hin. discriminate Hin.
  - simpl. lia.
Defined.

(** Round 3 returns the placeholder and touches nothing; rounds 10 and 395
    run the whole pass on the loaded model and return the metrics of the
    three clients and of the global test set. *)
Lemma evaluate_gating_witness :
  Demo.evaluate Demo.loaders 3 [[1; 2]; [3]] tt Demo.fresh
    = (Return (1, []), Demo.fresh) /\
  Demo.evaluate Demo.loaders 10 [[1; 2]; [3]] tt Demo.fresh
    = (Return (7, [("global_accuracy", 1); ("local_loss", 10);
                   ("local_accuracy", 2)]),
       {| server.net :=
            {| server.state := [("w", [1; 2]); ("b", [3])];
               server.training := true |};
          server.disk := [];
          server.iterated := server.full_pass Demo.loaders |}) /\
  Demo.evaluate Demo.loaders 395 [[1; 2]; [3]] tt Demo.fresh
    = (Return (7, [("global_accuracy", 1); ("local_loss", 10);
                   ("local_accuracy", 2)]),
       {| server.net :=
            {| server.state := [("w", [1; 2]); ("b", [3])];
               server.training := true |};
          server.disk := [];
          server.iterated := server.full_pass Demo.loaders |}).
Proof.
  pose (gating := fun r =>
    evaluate_gating (Config := unit) Demo.torch_Tensor Demo.shape
      (fun z : Z => z) Z.add Demo.forward Demo.test Demo.type_int
      Demo.load_residue "outputs" Demo.loaders r [[1; 2]; [3]] tt Demo.fresh).
  split; [|split].
  - destruct (gating 3) as [[_ Hret] [Hworld _]].
    rewrite (surjective_pairing (Demo.evaluate _ _ _ _ _)).
    unfold Demo.evaluate.
    rewrite Hret, Hworld; [reflexivity| |]; split; (discriminate || reflexivity).
  - destruct (gating 10) as (_ & _ & Hfull).
    destruct (Hfull ltac:(intros [Hmod _]; now apply Hmod)) as (_ & Hpass & _).
    exact (Hpass Demo.loaded eq_refl ltac:(simpl; lia)).
  - destruct (gating 395) as (_ & _ & Hfull).
    destruct (Hfull ltac:(intros [_ Hlt]; discriminate Hlt)) as (_ & Hpass & _).
    exact (Hpass Demo.loaded eq_refl ltac:(simpl; lia)).
Defined.

(** Round 100 writes [model_after_round_100.pth] with the loaded weights;
    round 105 writes nothing. *)
Lemma checkpoint_cadence_witness :
  server.disk (snd (Demo.evaluate Demo.loaders 100 [[1; 2]; [3]] tt Demo.fresh))
    = [{| utils.parent := "outputs";
          utils.name := "model_after_round_100.pth";
          utils.content := [("w", [1; 2]); ("b", [3])] |}] /\
  server.disk (snd (Demo.evaluate Demo.loaders 105 [[1; 2]; [3]] tt Demo.fresh))
    = [].
Proof.
  pose (cadence := fun r =>
    checkpoint_cadence (Config := unit) Demo.torch_Tensor Demo.shape
      (fun z : Z => z) Z.add Demo.forward Demo.test Demo.type_int
      Demo.load_residue "outputs" Demo.loaders r [[1; 2]; [3]] tt Demo.fresh).
  split.
  - destruct (cadence 100) as (_ & Hwrite & _).
    destruct (Hwrite eq_refl) as [_ Hdisk].
    exact (Hdisk Demo.loaded eq_refl).
  - destruct (cadence 105) as (Hkeep & _).
    apply Hkeep. discriminate.
Defined.

(** Three clients with results (2, 1), (3, 1) and (5, 0): the local loss is
    10 and the local accuracy 2, not their means. *)
Lemma evaluate_returns_sums_witness :
  fst (Demo.evaluate Demo.loaders 10 [[1; 2]; [3]] tt Demo.fresh)
  = Return (7, [("global_accuracy", 1); ("local_loss", 10);
                ("local_accuracy", 2)]).
Proof.
  destruct (evaluate_returns_sums (Config := unit) Demo.torch_Tensor Demo.shape
              (fun z : Z => z) Z.add Demo.forward Demo.test Demo.type_int
              Demo.load_residue "outputs" Demo.loaders 10 [[1; 2]; [3]] tt
              Demo.fresh Demo.loaded) as [Hrun _].
  - reflexivity.
  - reflexivity.
  - simpl. lia.
  - unfold Demo.evaluate. rewrite Hrun. reflexivity.
Defined.

(** No client at all, on round 397. *)
Lemma evaluate_without_clients_witness :
  fst (Demo.evaluate Demo.no_clients 397 [[1; 2]; [3]] tt Demo.fresh)
  = Return (7, [("global_accuracy", 1); ("local_loss", 0);
                ("local_accuracy", 0)]).
Proof.
  unfold Demo.evaluate.
  rewrite (evaluate_without_clients (Config := unit) Demo.torch_Tensor
             Demo.shape (fun z : Z => z) Z.add Demo.forward Demo.test
             Demo.type_int Demo.load_residue "outputs" Demo.no_clients 397
             [[1; 2]; [3]] tt Demo.fresh Demo.loaded);
    reflexivity.
Defined.

(** * Further facts *)

(** ** Mode strings *)

Section ModeStringFacts.

Lemma str_split_nonempty (s : string) : str_split "-" s <> [].
Proof.
  destruct s as [|c s]; simpl; [discriminate|].
  destruct (Ascii.eqb c "-"); [discriminate|].
  destruct (str_split "-" s); discriminate.
Qed.

Lemma str_join_cons (part : string) (rest : list string) :
  rest <> [] ->
  str_join "-" (part :: rest) = part +:+ "-" +:+ str_join "-" rest.
Proof. destruct rest; [contradiction|reflexivity]. Qed.

Lemma str_join_split (s : string) : str_join "-" (str_split "-" s) = s.
Proof.
  induction s as [|c s IH]; [reflexivity|].
  pose proof (str_split_nonempty s) as Hne. simpl str_split.
  destruct (Ascii.eqb_spec c "-") as [->|Hc].
  - rewrite str_join_cons by exact Hne. simpl. now rewrite IH.
  - destruct (str_split "-" s) as [|head others]; [contradiction|].
    destruct others as [|next others].
    + simpl in *. now rewrite IH.
    + rewrite str_join_cons by discriminate.
      rewrite str_join_cons in IH by discriminate.
      simpl. now rewrite <- IH.
Qed.

End ModeStringFacts.

(** ** More on the model-rate manager *)

Section ManagerMore.

Context {Rate Gen : Type}.
Variable multinomial : list Z -> Z -> Z -> Gen -> outcome (list nat) * Gen.

Import utils.

(** The "fix" branch as one chain of steps that leave the store alone. *)
Lemma fix_unfold (h : store Rate Gen) (num_users : Z) :
  model_split_mode (self h) = "fix" ->
  create_model_rate_mapping multinomial num_users h
  = (obind (read_levels (model_split_rate (self h)) (model_mode (self h)) [] [])
       (fun levels =>
        obind (floordiv num_users (sum (snd levels))) (fun k =>
        obind (emit_blocks (fst levels) (snd levels) k
                 (seq 0 (length (fst levels))) []) (fun client_model_rate =>
        obind (comprehension (fun _ => getitem_last client_model_rate)
                 (range (num_users - len client_model_rate))) (fun padding =>
        Return (Some (client_model_rate ++ padding)))))),
     h).
Proof.
  intros Hmode. unfold create_model_rate_mapping, bind, gets, lift, ret. simpl.
  rewrite Hmode. simpl.
  destruct (read_levels _ _ _ _) as [[mode_rate proportion]|e]; simpl;
    [|reflexivity].
  destruct (floordiv _ _) as [k|e]; simpl; [|reflexivity].
  destruct (emit_blocks _ _ _ _ _) as [client_model_rate|e]; simpl;
    [|reflexivity].
  now destruct (comprehension _ _).
Qed.

(** The "dynamic" branch: the levels are read before the draw. *)
Lemma dynamic_unfold (h : store Rate Gen) (num_users : Z) :
  model_split_mode (self h) = "dynamic" ->
  create_model_rate_mapping multinomial num_users h
  = match read_levels (model_split_rate (self h)) (model_mode (self h)) [] [] with
    | Raise e => (Raise e, h)
    | Return (mode_rate, proportion) =>
        let (drawn, g) :=
          multinomial proportion (sum proportion) num_users (generator h) in
        (obind drawn (fun rate_idx =>
         obind (comprehension (getitem mode_rate) rate_idx)
           (fun client_model_rate => Return (Some client_model_rate))),
         {| self := self h; generator := g |})
    end.
Proof.
  intros Hmode. unfold create_model_rate_mapping, bind, gets, lift, ret. simpl.
  rewrite Hmode. simpl.
  destruct (read_levels _ _ _ _) as [[mode_rate proportion]|e]; simpl;
    [|reflexivity].
  unfold sample.
  destruct (multinomial _ _ _ _) as [[rate_idx|e] g]; simpl; [|reflexivity].
  now destruct (comprehension _ _).
Qed.

(** Reading the tokens with levels already read in front. *)
Lemma read_levels_acc (rates : gmap string Rate) (tokens : list string) :
  forall mode_rate proportion,
    read_levels rates tokens mode_rate proportion
    = obind (read_levels rates tokens [] [])
        (fun levels =>
           Return (mode_rate ++ fst levels, proportion ++ snd levels)).
Proof.
  induction tokens as [|m rest IH]; intros mr pr; simpl.
  - now rewrite !app_nil_r.
  - destruct (getitem0 m) as [level|]; simpl; [|reflexivity].
    destruct (rates !! level) as [rate|]; [|reflexivity].
    destruct (int_of_str (slice_from1 m)) as [p|]; simpl; [|reflexivity].
    rewrite (IH (mr ++ [rate])), (IH [rate]).
    destruct (read_levels rates rest [] []) as [[mr' pr']|e]; simpl;
      [|reflexivity].
    now rewrite <- !app_assoc.
Qed.

Lemma read_levels_app (rates : gmap string Rate) (good rest : list string) :
  read_levels rates (good ++ rest) [] []
  = obind (read_levels rates good [] [])
      (fun levels => read_levels rates rest (fst levels) (snd levels)).
Proof.
  induction good as [|m good IH]; simpl; [reflexivity|].
  destruct (getitem0 m) as [level|]; simpl; [|reflexivity].
  destruct (rates !! level) as [rate|]; [|reflexivity].
  destruct (int_of_str (slice_from1 m)) as [p|]; simpl; [|reflexivity].
  rewrite (read_levels_acc rates (good ++ rest)), IH.
  rewrite (read_levels_acc rates good [rate] [p]).
  destruct (read_levels rates good [] []) as [[mr pr]|e]; simpl; [|reflexivity].
  rewrite (read_levels_acc rates rest mr pr).
  rewrite (read_levels_acc rates rest (rate :: mr) (p :: pr)).
  now destruct (read_levels rates rest [] []).
Qed.

Lemma read_levels_count (rates : gmap string Rate) (tokens : list string) :
  forall mode_rate proportion mode_rate' proportion',
    read_levels rates tokens mode_rate proportion
      = Return (mode_rate', proportion') ->
    length mode_rate' = (length mode_rate + length tokens)%nat.
Proof.
  induction tokens as [|m rest IH]; intros mr pr mr' pr' Hrun; simpl in Hrun.
  - inversion Hrun; subst. simpl. lia.
  - destruct (getitem0 m) as [level|]; simpl in Hrun; [|discriminate].
    destruct (rates !! level) as [rate|]; [|discriminate].
    destruct (int_of_str (slice_from1 m)) as [p|]; simpl in Hrun; [|discriminate].
    apply IH in Hrun. rewrite length_app in Hrun. simpl in *. lia.
Qed.

(** Every rate read comes from the catalogue, under the first letter of a
    token. *)
Lemma read_levels_sound (rates : gmap string Rate) (tokens : list string) :
  forall mode_rate proportion mode_rate' proportion' rate,
    read_levels rates tokens mode_rate proportion
      = Return (mode_rate', proportion') ->
    rate ∈ mode_rate' ->
    rate ∈ mode_rate \/
    exists m level,
      m ∈ tokens /\ getitem0 m = Return level /\ rates !! level = Some rate.
Proof.
  induction tokens as [|m rest IH]; intros mr pr mr' pr' rate Hrun Hin;
    simpl in Hrun.
  - inversion Hrun; subst. now left.
  - destruct (getitem0 m) as [level|] eqn:Hlevel; simpl in Hrun; [|discriminate].
    destruct (rates !! level) as [r|] eqn:Hr; [|discriminate].
    destruct (int_of_str (slice_from1 m)) as [p|]; simpl in Hrun; [|discriminate].
    destruct (IH _ _ _ _ _ Hrun Hin) as [Hacc|(m' & level' & Hm' & Hl' & Hr')].
    + apply elem_of_app in Hacc as [Hacc|Hacc]; [now left|].
      apply list_elem_of_singleton in Hacc as ->.
      right. exists m, level. split; [apply elem_of_cons; now left|now split].
    + right. exists m', level'. split; [apply elem_of_cons; now right|now split].
Qed.

Lemma emit_blocks_elems (mode_rate : list Rate) (proportion : list Z) (k : Z)
    (indices : list nat) :
  forall client_model_rate result rate,
    emit_blocks mode_rate proportion k indices client_model_rate = Return result ->
    rate ∈ result -> rate ∈ client_model_rate \/ rate ∈ mode_rate.
Proof.
  induction indices as [|i rest IH]; intros acc result rate Hrun Hin;
    simpl in Hrun.
  - inversion Hrun; subst. now left.
  - unfold getitem in Hrun.
    destruct (mode_rate !! i) as [r|] eqn:Hr; simpl in Hrun; [|discriminate].
    destruct (proportion !! i) as [p|]; simpl in Hrun; [|discriminate].
    unfold np_repeat in Hrun.
    destruct (k * p <? 0); simpl in Hrun; [discriminate|].
    destruct (IH _ _ _ Hrun Hin) as [Hacc|Hmr]; [|now right].
    apply elem_of_app in Hacc as [Hacc|Hacc]; [now left|].
    apply elem_of_replicate in Hacc as [-> _].
    right. eapply list_elem_of_lookup_2. exact Hr.
Qed.

Lemma comprehension_getitem_elems (mode_rate : list Rate) (rate_idx : list nat) :
  forall result rate,
    comprehension (getitem mode_rate) rate_idx = Return result ->
    rate ∈ result -> rate ∈ mode_rate.
Proof.
  induction rate_idx as [|j rest IH]; intros result rate Hrun Hin; simpl in Hrun.
  - inversion Hrun; subst. now apply elem_of_nil in Hin.
  - unfold getitem in Hrun at 1.
    destruct (mode_rate !! j) as [r|] eqn:Hr; simpl in Hrun; [|discriminate].
    destruct (comprehension (getitem mode_rate) rest) as [rs|]; simpl in Hrun;
      [|discriminate].
    inversion Hrun; subst.
    apply elem_of_cons in Hin as [->|Hin]; [|now apply (IH rs)].
    eapply list_elem_of_lookup_2. exact Hr.
Qed.

Lemma padding_elems (client_model_rate : list Rate) (xs : list Z) :
  forall padding rate,
    comprehension (fun _ => getitem_last client_model_rate) xs = Return padding ->
    rate ∈ padding -> rate ∈ client_model_rate.
Proof.
  intros padding rate Hrun Hin. rewrite comprehension_const in Hrun.
  destruct xs as [|x xs]; [inversion Hrun; subst; now apply elem_of_nil in Hin|].
  unfold getitem_last in Hrun.
  destruct (last client_model_rate) as [y|] eqn:Hlast; [|discriminate].
  inversion Hrun; subst.
  apply elem_of_cons in Hin as [->|Hin];
    [|apply elem_of_replicate in Hin as [-> _]];
    now apply last_Some_elem_of.
Qed.

(** A negative count per unit of proportion stops at the first level that
    has clients. *)
Lemma emit_blocks_negative (k : Z) (mode_rate : list Rate) :
  k < 0 ->
  forall (proportion : list Z) (done_rate : list Rate) (done_prop : list Z)
         (client_model_rate : list Rate),
    length done_rate = length done_prop ->
    length mode_rate = length proportion ->
    Forall (fun p => 0 <= p) proportion ->
    Exists (fun p => 0 < p) proportion ->
    emit_blocks (done_rate ++ mode_rate) (done_prop ++ proportion) k
      (seq (length done_rate) (length mode_rate)) client_model_rate
    = Raise ValueError.
Proof.
  intros Hk.
  induction mode_rate as [|rate mode_rate IH];
    intros [|p proportion] dr dp acc Hdone Hlen Hpos Hex; try discriminate.
  - now apply Exists_nil in Hex.
  - simpl seq. simpl emit_blocks. unfold getitem.
    rewrite (list_lookup_middle dr mode_rate rate) by reflexivity.
    rewrite (list_lookup_middle dp proportion p) by exact Hdone.
    simpl. unfold np_repeat.
    inversion Hpos as [|? ? Hp Hrest]; subst.
    destruct (Z.ltb_spec (k * p) 0) as [Hneg|Hnonneg]; [reflexivity|].
    assert (p = 0) as -> by nia. simpl.
    apply Exists_cons in Hex as [Hex|Hex]; [lia|].
    specialize (IH proportion (dr ++ [rate]) (dp ++ [0])
                  (acc ++ replicate (Z.to_nat (k * 0)) rate)).
    rewrite <- !app_assoc in IH. simpl in IH.
    rewrite !length_app in IH. simpl in IH.
    replace (length dr + 1)%nat with (S (length dr)) in IH by lia.
    apply IH; [lia|simpl in Hlen; lia|exact Hrest|exact Hex].
Qed.

Lemma sum_positive_exists (l : list Z) :
  Forall (fun p => 0 <= p) l -> 0 < sum l -> Exists (fun p => 0 < p) l.
Proof.
  induction 1 as [|p l Hp _ IH]; intros Hsum.
  - unfold sum in Hsum. simpl in Hsum. lia.
  - rewrite sum_cons in Hsum.
    destruct (Z.eq_dec p 0) as [->|Hne];
      [apply Exists_cons_tl, IH; lia|apply Exists_cons_hd; lia].
Qed.

(** With enough users the "fix" branch returns one rate per user. *)
Lemma fix_enough_users (h : store Rate Gen) (mode_rate : list Rate)
    (proportion : list Z) (num_users : Z) :
  model_split_mode (self h) = "fix" ->
  read_levels (model_split_rate (self h)) (model_mode (self h)) [] []
    = Return (mode_rate, proportion) ->
  Forall (fun p => 0 <= p) proportion ->
  0 < sum proportion <= num_users ->
  exists rate padding,
    last (blocks (num_users / sum proportion) mode_rate proportion) = Some rate /\
    create_model_rate_mapping multinomial num_users h
      = (Return (Some (blocks (num_users / sum proportion) mode_rate proportion
                       ++ padding)), h) /\
    padding = replicate (Z.to_nat (num_users mod sum proportion)) rate /\
    len (blocks (num_users / sum proportion) mode_rate proportion ++ padding)
      = num_users.
Proof.
  intros Hmode Hread Hpos [Hsum Hn].
  pose proof (read_levels_length _ _ _ _ _ _ Hread eq_refl) as Hlen.
  set (S := sum proportion) in *. set (k := num_users / S).
  assert (1 <= k) as Hk by (unfold k; apply Z.div_le_lower_bound; lia).
  assert (Forall (fun p => 0 <= k * p) proportion) as Hcount.
  { eapply Forall_impl; [exact Hpos|]. intros p Hp. simpl in *. nia. }
  pose proof (blocks_len k mode_rate proportion Hlen Hcount) as Hblen.
  fold S in Hblen.
  pose proof (Z.div_mod num_users S ltac:(lia)) as Hdm. fold k in Hdm.
  pose proof (Z.mod_pos_bound num_users S Hsum) as Hmod.
  assert (is_Some (last (blocks k mode_rate proportion))) as [rate Hlast].
  { apply last_is_Some. intros Hnil. rewrite Hnil in Hblen.
    unfold len in Hblen. simpl in Hblen. nia. }
  exists rate, (replicate (Z.to_nat (num_users mod S)) rate).
  split; [exact Hlast|split; [|split; [reflexivity|]]].
  - rewrite (fix_branch multinomial h mode_rate proportion _ Hmode Hread);
      fold S; fold k; [|lia|exact Hcount].
    rewrite (padding_last _ _ rate Hlast). simpl.
    replace (num_users - len (blocks k mode_rate proportion))
      with (num_users mod S) by lia.
    reflexivity.
  - unfold len in *. rewrite length_app, length_replicate, Nat2Z.inj_add.
    rewrite Hblen, Z2Nat.id by lia. lia.
Qed.

(** The four outcomes of the "fix" branch on a well-formed mode string. *)
Lemma fix_outcome (h : store Rate Gen) (mode_rate : list Rate)
    (proportion : list Z) (num_users : Z) :
  model_split_mode (self h) = "fix" ->
  read_levels (model_split_rate (self h)) (model_mode (self h)) [] []
    = Return (mode_rate, proportion) ->
  Forall (fun p => 0 <= p) proportion ->
  0 < sum proportion ->
  (num_users < 0 /\
   create_model_rate_mapping multinomial num_users h = (Raise ValueError, h)) \/
  (num_users = 0 /\
   create_model_rate_mapping multinomial num_users h = (Return (Some []), h)) \/
  (1 <= num_users < sum proportion /\
   create_model_rate_mapping multinomial num_users h = (Raise IndexError, h)) \/
  (sum proportion <= num_users /\
   exists l,
     create_model_rate_mapping multinomial num_users h = (Return (Some l), h) /\
     len l = num_users).
Proof.
  intros Hmode Hread Hpos Hsum.
  pose proof (read_levels_length _ _ _ _ _ _ Hread eq_refl) as Hlen.
  destruct (Z.lt_trichotomy num_users 0) as [Hneg|[Hzero|Hposn]].
  - left. split; [exact Hneg|].
    rewrite (fix_unfold h num_users Hmode), Hread. simpl. unfold floordiv.
    destruct (Z.eqb_spec (sum proportion) 0) as [Hz|_]; [lia|]. simpl.
    pose proof (emit_blocks_negative (num_users / sum proportion) mode_rate
                  ltac:(apply Z.div_lt_upper_bound; lia) proportion [] [] []
                  eq_refl Hlen Hpos (sum_positive_exists _ Hpos Hsum)) as Hemit.
    simpl in Hemit. rewrite Hemit. reflexivity.
  - right; left. split; [exact Hzero|]. subst num_users.
    rewrite (fix_branch multinomial h mode_rate proportion 0 Hmode Hread).
    + rewrite Z.div_0_l, blocks_zero by lia. reflexivity.
    + lia.
    + rewrite Z.div_0_l by lia. apply Forall_forall. intros; lia.
  - destruct (Z.lt_ge_cases num_users (sum proportion)) as [Hfew|Henough].
    + right; right; left. split; [lia|].
      assert (num_users / sum proportion = 0) as Hbase
        by (apply Z.div_small; lia).
      rewrite (fix_branch multinomial h mode_rate proportion num_users Hmode Hread).
      * rewrite Hbase, blocks_zero. unfold len. simpl.
        rewrite padding_empty by lia. reflexivity.
      * lia.
      * rewrite Hbase. apply Forall_forall. intros; lia.
    + right; right; right. split; [exact Henough|].
      destruct (fix_enough_users h mode_rate proportion num_users Hmode Hread
                  Hpos ltac:(lia)) as (rate & padding & _ & Hrun & _ & Hl).
      eauto.
Qed.

End ManagerMore.

(** ** Further properties of utils.py *)

Section UtilsMore.

Context {Rate Gen : Type}.
Variable multinomial : list Z -> Z -> Z -> Gen -> outcome (list nat) * Gen.

Import utils.

(** X1.  [get_global_model_rate] returns the first character of the mode
    string; it raises [IndexError] when the string is empty or starts with
    the separator, because the first token is then empty. *)
Theorem get_global_model_rate_first_letter (model_mode : string) :
  get_global_model_rate model_mode
  = match model_mode with
    | EmptyString => Raise IndexError
    | String c _ =>
        if Ascii.eqb c "-" then Raise IndexError
        else Return (String c EmptyString)
    end.
Proof.
  destruct model_mode as [|c s]; [reflexivity|].
  unfold get_global_model_rate. simpl.
  destruct (Ascii.eqb c "-"); [reflexivity|].
  destruct (str_split "-" s); reflexivity.
Qed.

(** X2.  [__init__] loses nothing of the mode string: the tokens it stores
    are never an empty list, none of them holds a ["-"], and joined with
    ["-"] they give the mode string back. *)
Theorem init_keeps_mode_string (split_mode mode : string)
    (split_rate : gmap string Rate) :
  str_join "-" (model_mode (__init__ split_mode split_rate mode)) = mode /\
  model_mode (__init__ split_mode split_rate mode) <> [] /\
  Forall (fun token => has_dash token = false)
    (model_mode (__init__ split_mode split_rate mode)).
Proof.
  simpl. split; [apply str_join_split|split].
  - apply str_split_nonempty.
  - apply str_split_no_dash.
Qed.

(** X3.  For a manager built by [__init__] whose mode string parses, the
    two lists the loops work on are in step with the tokens: one rate and one
    proportion per token, at least one level, and no negative proportion
    (a minus sign cannot reach [int], it is the separator). *)
Theorem init_levels_well_formed (split_mode mode : string)
    (split_rate : gmap string Rate) (mode_rate : list Rate)
    (proportion : list Z) :
  read_levels split_rate (model_mode (__init__ split_mode split_rate mode)) [] []
    = Return (mode_rate, proportion) ->
  mode_rate <> [] /\
  length mode_rate = length (model_mode (__init__ split_mode split_rate mode)) /\
  length proportion = length mode_rate /\
  Forall (fun p => 0 <= p) proportion.
Proof.
  intros Hread.
  pose proof (read_levels_count _ _ _ _ _ _ Hread) as Hcount. simpl in Hcount.
  pose proof (read_levels_length _ _ _ _ _ _ Hread eq_refl) as Hlen.
  split; [|split; [exact Hcount|split; [now symmetry|]]].
  - intros ->. simpl in Hcount.
    pose proof (str_split_nonempty mode) as Hne.
    destruct (str_split "-" mode); [contradiction|discriminate].
  - eapply read_levels_nonneg; [apply str_split_no_dash|constructor|exact Hread].
Qed.

(** X4.  In "fix" mode a mode string whose proportions add up to zero (every
    level at proportion 0) makes every call raise [ZeroDivisionError],
    whatever [num_users] is. *)
Theorem fix_mode_zero_sum_raises (h : store Rate Gen) (mode_rate : list Rate)
    (proportion : list Z) (num_users : Z) :
  model_split_mode (self h) = "fix" ->
  read_levels (model_split_rate (self h)) (model_mode (self h)) [] []
    = Return (mode_rate, proportion) ->
  sum proportion = 0 ->
  create_model_rate_mapping multinomial num_users h = (Raise ZeroDivisionError, h).
Proof.
  intros Hmode Hread Hsum.
  rewrite (fix_unfold multinomial h num_users Hmode), Hread. simpl.
  unfold floordiv. now rewrite Hsum.
Qed.

(** X5.  In "fix" mode, on a mode string that parses into proportions that
    are not negative and not all zero: a negative [num_users] raises
    [ValueError] (a negative repeat count), zero users give the empty list, the
    call returns exactly when [num_users] is zero or at least the sum of the
    proportions, and whatever it returns has [num_users] entries. *)
Theorem fix_mode_outcomes (h : store Rate Gen) (mode_rate : list Rate)
    (proportion : list Z) (num_users : Z) :
  model_split_mode (self h) = "fix" ->
  read_levels (model_split_rate (self h)) (model_mode (self h)) [] []
    = Return (mode_rate, proportion) ->
  Forall (fun p => 0 <= p) proportion ->
  0 < sum proportion ->
  (num_users < 0 ->
   create_model_rate_mapping multinomial num_users h = (Raise ValueError, h)) /\
  (num_users = 0 ->
   create_model_rate_mapping multinomial num_users h = (Return (Some []), h)) /\
  ((exists l,
      fst (create_model_rate_mapping multinomial num_users h) = Return (Some l))
   <-> num_users = 0 \/ sum proportion <= num_users) /\
  (forall l,
     fst (create_model_rate_mapping multinomial num_users h) = Return (Some l) ->
     len l = num_users).
Proof.
  intros Hmode Hread Hpos Hsum.
  destruct (fix_outcome multinomial h mode_rate proportion num_users Hmode Hread
              Hpos Hsum)
    as [[Hn Hrun]|[[Hn Hrun]|[[Hn Hrun]|[Hn (l0 & Hrun & Hl0)]]]];
    rewrite Hrun; simpl; (split; [|split; [|split]]); try (intros; lia);
    try (intros; reflexivity).
  - split; [intros [l Hl]; discriminate|lia].
  - intros l Hl. discriminate.
  - split; [now left|intros _; eauto].
  - intros l Hl. inversion Hl; subst. unfold len. simpl. lia.
  - split; [intros [l Hl]; discriminate|lia].
  - intros l Hl. discriminate.
  - split; [now right|intros _; eauto].
  - intros l Hl. now inversion Hl; subst.
Qed.

Lemma parse_error_is_raised (h : store Rate Gen) (num_users : Z) (e : exn) :
  model_split_mode (self h) = "fix" \/ model_split_mode (self h) = "dynamic" ->
  read_levels (model_split_rate (self h)) (model_mode (self h)) [] [] = Raise e ->
  create_model_rate_mapping multinomial num_users h = (Raise e, h).
Proof.
  intros [Hmode|Hmode] Hread.
  - now rewrite (fix_unfold multinomial h num_users Hmode), Hread.
  - now rewrite (dynamic_unfold multinomial h num_users Hmode), Hread.
Qed.

(** X6.  In "fix" and in "dynamic" mode the first token that does not parse
    decides the exception, and the call raises before the random generator
    is used: [IndexError] for an empty token (an empty mode string, a
    doubled, leading or trailing ["-"]), [KeyError] for a level that is not
    in the catalogue, [ValueError] for a proportion that is not an
    integer. *)
Theorem bad_token_raises (h : store Rate Gen) (num_users : Z)
    (good rest : list string) (bad : string) (mode_rate : list Rate)
    (proportion : list Z) :
  model_split_mode (self h) = "fix" \/ model_split_mode (self h) = "dynamic" ->
  model_mode (self h) = good ++ bad :: rest ->
  read_levels (model_split_rate (self h)) good [] []
    = Return (mode_rate, proportion) ->
  (bad = EmptyString ->
   create_model_rate_mapping multinomial num_users h = (Raise IndexError, h)) /\
  (forall level,
     getitem0 bad = Return level ->
     model_split_rate (self h) !! level = None ->
     create_model_rate_mapping multinomial num_users h = (Raise KeyError, h)) /\
  (forall level rate,
     getitem0 bad = Return level ->
     model_split_rate (self h) !! level = Some rate ->
     int_of_str (slice_from1 bad) = Raise ValueError ->
     create_model_rate_mapping multinomial num_users h = (Raise ValueError, h)).
Proof.
  intros Hmode Htokens Hgood.
  assert (forall e,
            obind (getitem0 bad) (fun level =>
              match model_split_rate (self h) !! level with
              | None => Raise KeyError
              | Some _ =>
                  obind (int_of_str (slice_from1 bad))
                    (fun _ => Return tt)
              end) = Raise e ->
            create_model_rate_mapping multinomial num_users h = (Raise e, h))
    as Hraise.
  { intros e He. apply parse_error_is_raised; [exact Hmode|].
    rewrite Htokens, read_levels_app, Hgood. simpl.
    destruct (getitem0 bad) as [level|]; simpl in *; [|now inversion He].
    destruct (model_split_rate (self h) !! level); [|now inversion He].
    destruct (int_of_str (slice_from1 bad)); simpl in *;
      [discriminate|now inversion He]. }
  split; [|split].
  - intros ->. now apply Hraise.
  - intros level Hlevel Hrate. apply Hraise.
    rewrite Hlevel. simpl. now rewrite Hrate.
  - intros level rate Hlevel Hrate Hint. apply Hraise.
    rewrite Hlevel. simpl. now rewrite Hrate, Hint.
Qed.

(** X7.  Whatever list a call returns, in "fix" or in "dynamic" mode, every
    rate in it is the catalogue entry of the first letter of some token of
    the mode string: no client gets a rate from outside the catalogue. *)
Theorem returned_rates_come_from_catalogue (h h' : store Rate Gen)
    (num_users : Z) (l : list Rate) (rate : Rate) :
  create_model_rate_mapping multinomial num_users h = (Return (Some l), h') ->
  rate ∈ l ->
  exists m level,
    m ∈ model_mode (self h) /\
    getitem0 m = Return level /\
    model_split_rate (self h) !! level = Some rate.
Proof.
  intros Hrun Hin.
  assert (forall mode_rate proportion,
            read_levels (model_split_rate (self h)) (model_mode (self h)) [] []
              = Return (mode_rate, proportion) ->
            rate ∈ mode_rate ->
            exists m level,
              m ∈ model_mode (self h) /\
              getitem0 m = Return level /\
              model_split_rate (self h) !! level = Some rate) as Hsound.
  { intros mr pr Hread Hmr.
    destruct (read_levels_sound _ _ _ _ _ _ _ Hread Hmr) as [Hnil|Hfound];
      [now apply elem_of_nil in Hnil|exact Hfound]. }
  destruct (String.eqb_spec (model_split_mode (self h)) "fix") as [Hfix|Hnfix].
  - rewrite (fix_unfold multinomial h num_users Hfix) in Hrun.
    destruct (read_levels _ _ _ _) as [[mr pr]|e] eqn:Hread; simpl in Hrun;
      [|discriminate].
    destruct (floordiv num_users (sum pr)) as [k|e]; simpl in Hrun;
      [|discriminate].
    destruct (emit_blocks mr pr k _ _) as [cmr|e] eqn:Hemit; simpl in Hrun;
      [|discriminate].
    destruct (comprehension _ _) as [padding|e] eqn:Hpad; simpl in Hrun;
      [|discriminate].
    inversion Hrun; subst. apply (Hsound mr pr eq_refl).
    assert (forall r, r ∈ cmr -> r ∈ mr) as Hcmr.
    { intros r Hr.
      destruct (emit_blocks_elems _ _ _ _ _ _ _ Hemit Hr) as [Hnil|Hmr];
        [now apply elem_of_nil in Hnil|exact Hmr]. }
    apply elem_of_app in Hin as [Hin|Hin]; [now apply Hcmr|].
    apply Hcmr. eapply padding_elems; [exact Hpad|exact Hin].
  - destruct (String.eqb_spec (model_split_mode (self h)) "dynamic")
      as [Hdyn|Hndyn].
    + rewrite (dynamic_unfold multinomial h num_users Hdyn) in Hrun.
      destruct (read_levels _ _ _ _) as [[mr pr]|e] eqn:Hread; [|discriminate].
      destruct (multinomial _ _ _ _) as [[rate_idx|e] g]; simpl in Hrun;
        [|discriminate].
      destruct (comprehension _ _) as [cmr|e] eqn:Hcomp; simpl in Hrun;
        [|discriminate].
      inversion Hrun; subst. apply (Hsound mr pr eq_refl).
      eapply comprehension_getitem_elems; [exact Hcomp|exact Hin].
    + apply String.eqb_neq in Hnfix, Hndyn.
      unfold create_model_rate_mapping, bind, gets, ret in Hrun. simpl in Hrun.
      rewrite Hnfix, Hndyn in Hrun. discriminate.
Qed.

(** X8.  Outside "dynamic" mode a call does not use the random generator:
    the whole store is as before, the outcome does not depend on the state
    of the generator, and calling again gives the same outcome. *)
Theorem fix_mode_is_repeatable (h : store Rate Gen) (num_users : Z) :
  model_split_mode (self h) <> "dynamic" ->
  snd (create_model_rate_mapping multinomial num_users h) = h /\
  create_model_rate_mapping multinomial num_users
    (snd (create_model_rate_mapping multinomial num_users h))
  = create_model_rate_mapping multinomial num_users h /\
  (forall g : Gen,
     fst (create_model_rate_mapping multinomial num_users
            {| self := self h; generator := g |})
     = fst (create_model_rate_mapping multinomial num_users h)).
Proof.
  intros Hmode.
  destruct (String.eqb_spec (model_split_mode (self h)) "fix") as [Hfix|Hnfix].
  - rewrite (fix_unfold multinomial h num_users Hfix). simpl.
    split; [reflexivity|split].
    + now rewrite (fix_unfold multinomial h num_users Hfix).
    + intros g.
      now rewrite (fix_unfold multinomial {| self := self h; generator := g |}
                     num_users Hfix).
  - apply String.eqb_neq in Hnfix, Hmode.
    assert (forall s : store Rate Gen,
              self s = self h ->
              create_model_rate_mapping multinomial num_users s
              = (Return None, s)) as Hnone.
    { intros s Hs. unfold create_model_rate_mapping, bind, gets, ret. simpl.
      now rewrite Hs, Hnfix, Hmode. }
    rewrite (Hnone h eq_refl). simpl.
    split; [reflexivity|split; [now apply Hnone|]].
    intros g. now rewrite Hnone.
Qed.

Lemma comprehension_getitem_total (mode_rate : list Rate) (rate_idx : list nat) :
  Forall (fun j => (j < length mode_rate)%nat) rate_idx ->
  exists l,
    comprehension (getitem mode_rate) rate_idx = Return l /\
    length l = length rate_idx /\
    forall i j, rate_idx !! i = Some j -> l !! i = mode_rate !! j.
Proof.
  induction 1 as [|j rest Hj _ (l & Hl & Hlen & Hat)].
  - exists []. split; [reflexivity|split; [reflexivity|]]. intros i j Hi.
    now rewrite lookup_nil in Hi.
  - destruct (lookup_lt_is_Some_2 mode_rate j Hj) as [r Hr].
    exists (r :: l). simpl. unfold getitem at 1. rewrite Hr. simpl. rewrite Hl.
    split; [reflexivity|split; [simpl; now rewrite Hlen|]].
    intros [|i] j' Hi; simpl in *; [inversion Hi; now subst|now apply Hat].
Qed.

(** X9.  In "dynamic" mode, when the draw gives indices of levels, client
    [i] gets the rate of the level drawn for it, there are as many rates as
    indices drawn, and the generator is left as the draw left it; when the
    draw raises, the call raises the same exception. *)
Theorem dynamic_mode_maps_draws (h : store Rate Gen) (mode_rate : list Rate)
    (proportion : list Z) (num_users : Z) :
  model_split_mode (self h) = "dynamic" ->
  read_levels (model_split_rate (self h)) (model_mode (self h)) [] []
    = Return (mode_rate, proportion) ->
  (forall rate_idx g,
     multinomial proportion (sum proportion) num_users (generator h)
       = (Return rate_idx, g) ->
     Forall (fun j => (j < length mode_rate)%nat) rate_idx ->
     exists l,
       create_model_rate_mapping multinomial num_users h
         = (Return (Some l), {| self := self h; generator := g |}) /\
       length l = length rate_idx /\
       forall i j, rate_idx !! i = Some j -> l !! i = mode_rate !! j) /\
  (forall e g,
     multinomial proportion (sum proportion) num_users (generator h)
       = (Raise e, g) ->
     create_model_rate_mapping multinomial num_users h
       = (Raise e, {| self := self h; generator := g |})).
Proof.
  intros Hmode Hread. split.
  - intros rate_idx g Hdraw Hrange.
    destruct (comprehension_getitem_total mode_rate rate_idx Hrange)
      as (l & Hl & Hlen & Hat).
    exists l. split; [|now split].
    rewrite (dynamic_unfold multinomial h num_users Hmode), Hread, Hdraw.
    simpl. now rewrite Hl.
  - intros e g Hdraw.
    now rewrite (dynamic_unfold multinomial h num_users Hmode), Hread, Hdraw.
Qed.

Lemma global_level_of_first_token (mode first : string)
    (others : list string) :
  str_split "-" mode = first :: others ->
  get_global_model_rate mode = getitem0 first.
Proof.
  intros Htok. unfold get_global_model_rate. simpl.
  change (String.app EmptyString mode) with mode. now rewrite Htok.
Qed.

(** X10.  The level [get_global_model_rate] names is the level of the first
    block: for a manager built by [__init__] in "fix" mode whose first
    proportion is positive, a call with at least [sum(proportion)] users gives
    client 0 the catalogue rate of that level. *)
Theorem first_client_gets_global_rate (split_rate : gmap string Rate)
    (mode : string) (g : Gen) (mode_rate : list Rate) (proportion : list Z)
    (p0 num_users : Z) :
  read_levels split_rate (str_split "-" mode) [] []
    = Return (mode_rate, proportion) ->
  head proportion = Some p0 ->
  0 < p0 ->
  sum proportion <= num_users ->
  exists level rate l,
    get_global_model_rate mode = Return level /\
    split_rate !! level = Some rate /\
    create_model_rate_mapping multinomial num_users
      {| self := __init__ "fix" split_rate mode; generator := g |}
    = (Return (Some l),
       {| self := __init__ "fix" split_rate mode; generator := g |}) /\
    l !! 0%nat = Some rate.
Proof.
  intros Hread Hhead Hp0 Hn.
  assert (Forall (fun p => 0 <= p) proportion) as Hpos.
  { eapply read_levels_nonneg; [apply str_split_no_dash|constructor|exact Hread]. }
  assert (exists first others level rate mode_rate' proportion',
            str_split "-" mode = first :: others /\
            getitem0 first = Return level /\
            split_rate !! level = Some rate /\
            mode_rate = rate :: mode_rate' /\
            proportion = p0 :: proportion')
    as (first & others & level & rate & mr' & pr' & Htok & Hlevel & Hrate & -> & ->).
  { destruct (str_split "-" mode) as [|first others] eqn:Htok.
    - inversion Hread; subst. discriminate.
    - simpl in Hread.
      destruct (getitem0 first) as [level|] eqn:Hlevel; simpl in Hread;
        [|discriminate].
      destruct (split_rate !! level) as [rate|] eqn:Hrate; [|discriminate].
      destruct (int_of_str (slice_from1 first)) as [p|]; simpl in Hread;
        [|discriminate].
      rewrite read_levels_acc in Hread.
      destruct (read_levels split_rate others [] []) as [[mr' pr']|e];
        simpl in Hread; [|discriminate].
      inversion Hread; subst. simpl in Hhead. inversion Hhead; subst.
      exists first, others, level, rate, mr', pr'. repeat split; assumption. }
  assert (0 < sum (p0 :: pr')) as Hsum.
  { rewrite sum_cons. inversion Hpos; subst.
    pose proof (sum_nonneg pr' ltac:(assumption)). lia. }
  destruct (fix_enough_users multinomial
              {| self := __init__ "fix" split_rate mode; generator := g |}
              (rate :: mr') (p0 :: pr') num_users eq_refl Hread Hpos
              ltac:(split; assumption))
    as (r & padding & _ & Hrun & _ & _).
  exists level, rate. eexists. split; [|split; [exact Hrate|split; [exact Hrun|]]].
  - rewrite (global_level_of_first_token mode first others Htok).
    exact Hlevel.
  - rewrite blocks_cons.
    assert (1 <= num_users / sum (p0 :: pr')) as Hk
      by (apply Z.div_le_lower_bound; lia).
    destruct (Z.to_nat (num_users / sum (p0 :: pr') * p0)) as [|c] eqn:Hc;
      [nia|reflexivity].
Qed.

End UtilsMore.

Section PreprocessFacts.

Context {Node : Type}.

Import utils.

(** X11.  [preprocess_input] always copies the model name, the hidden layers
    and the norm; it adds the data shape and ten classes for "MNIST" and for
    "CIFAR10", and for any other dataset name it raises nothing and returns a
    dictionary with neither [data_shape] nor [classes_size]; no other key is
    ever set. *)
Theorem preprocess_input_keys (model : cfg_model Node) (data : cfg_data) :
  preprocess_input model data !! "model" = Some (Configured (model_name model)) /\
  preprocess_input model data !! "hidden_layers"
    = Some (Configured (hidden_layers model)) /\
  preprocess_input model data !! "norm" = Some (Configured (norm model)) /\
  (dataset_name data = "MNIST" ->
   preprocess_input model data !! "data_shape" = Some (Ints [1; 28; 28]) /\
   preprocess_input model data !! "classes_size" = Some (Int 10)) /\
  (dataset_name data = "CIFAR10" ->
   preprocess_input model data !! "data_shape" = Some (Ints [3; 32; 32]) /\
   preprocess_input model data !! "classes_size" = Some (Int 10)) /\
  (dataset_name data <> "MNIST" -> dataset_name data <> "CIFAR10" ->
   preprocess_input model data !! "data_shape" = None /\
   preprocess_input model data !! "classes_size" = None) /\
  (forall key : string,
     is_Some (preprocess_input model data !! key) ->
     key ∈ ["model"; "data_shape"; "classes_size"; "hidden_layers"; "norm"]).
Proof.
  unfold preprocess_input.
  destruct (String.eqb_spec (dataset_name data) "MNIST") as [Hm|Hm];
    [|destruct (String.eqb_spec (dataset_name data) "CIFAR10") as [Hc|Hc]].
  all: repeat split; intros;
    try congruence; try (simplify_map_eq; reflexivity).
  all: match goal with
       | H : is_Some (_ !! ?key) |- _ =>
           repeat (rewrite lookup_insert in H; case_decide;
                   [subst; set_solver|]);
           rewrite lookup_empty in H; now destruct H
       end.
Qed.

End PreprocessFacts.

(** ** The further properties of utils.py on the example catalogue *)

(** An empty list of levels cannot be read from a constructed manager: the
    mode "a2-b1" gives two levels. *)
Lemma init_levels_well_formed_witness :
  length [Demo.one; Demo.half] = length ["a2"; "b1"]%string /\
  Forall (fun p => 0 <= p) [2; 1].
Proof.
  destruct (init_levels_well_formed "fix" "a2-b1" Demo.rates
              [Demo.one; Demo.half] [2; 1]) as (_ & Hlen & _ & Hpos).
  - vm_compute. reflexivity.
  - split; [exact Hlen|exact Hpos].
Defined.

(** Mode "a0-b0": the proportions add up to zero. *)
Lemma fix_mode_zero_sum_raises_witness :
  utils.create_model_rate_mapping Demo.first_level 10 (Demo.manager "fix" "a0-b0")
  = (Raise ZeroDivisionError, Demo.manager "fix" "a0-b0").
Proof.
  apply (fix_mode_zero_sum_raises Demo.first_level (Demo.manager "fix" "a0-b0")
           [Demo.one; Demo.half] [0; 0] 10).
  - reflexivity.
  - vm_compute. reflexivity.
  - reflexivity.
Defined.

(** Mode "a2-b1" with minus one user and with no user. *)
Lemma fix_mode_outcomes_witness :
  utils.create_model_rate_mapping Demo.first_level (-1)
    (Demo.manager "fix" "a2-b1")
  = (Raise ValueError, Demo.manager "fix" "a2-b1") /\
  utils.create_model_rate_mapping Demo.first_level 0 (Demo.manager "fix" "a2-b1")
  = (Return (Some []), Demo.manager "fix" "a2-b1").
Proof.
  pose (outcomes := fun n =>
    fix_mode_outcomes Demo.first_level (Demo.manager "fix" "a2-b1")
      [Demo.one; Demo.half] [2; 1] n eq_refl).
  split.
  - destruct (outcomes (-1)) as (Hneg & _).
    + vm_compute. reflexivity.
    + repeat constructor; discriminate.
    + reflexivity.
    + apply Hneg. reflexivity.
  - destruct (outcomes 0) as (_ & Hzero & _).
    + vm_compute. reflexivity.
    + repeat constructor; discriminate.
    + reflexivity.
    + apply Hzero. reflexivity.
Defined.

(** Mode "a1-c2-b1": level "c" is not in the catalogue. *)
Lemma bad_token_raises_witness :
  utils.create_model_rate_mapping Demo.first_level 10
    (Demo.manager "dynamic" "a1-c2-b1")
  = (Raise KeyError, Demo.manager "dynamic" "a1-c2-b1").
Proof.
  destruct (bad_token_raises Demo.first_level
              (Demo.manager "dynamic" "a1-c2-b1") 10 ["a1"%string] ["b1"%string]
              "c2" [Demo.one] [1]) as (_ & Hkey & _).
  - now right.
  - reflexivity.
  - vm_compute. reflexivity.
  - apply (Hkey "c"%string); [reflexivity|vm_compute; reflexivity].
Defined.

(** The padded client of "a2-b1" with seven users holds the rate of "b". *)
Lemma returned_rates_come_from_catalogue_witness :
  exists m level,
    m ∈ ["a2"; "b1"]%string /\
    getitem0 m = Return level /\
    Demo.rates !! level = Some Demo.half.
Proof.
  apply (returned_rates_come_from_catalogue Demo.first_level
           (Demo.manager "fix" "a2-b1") (Demo.manager "fix" "a2-b1") 7
           [Demo.one; Demo.one; Demo.one; Demo.one;
            Demo.half; Demo.half; Demo.half] Demo.half).
  - vm_compute. reflexivity.
  - apply (list_elem_of_lookup_2 _ 6%nat). reflexivity.
Defined.

Lemma fix_mode_is_repeatable_witness :
  snd (utils.create_model_rate_mapping Demo.first_level 7
         (Demo.manager "fix" "a2-b1"))
  = Demo.manager "fix" "a2-b1".
Proof.
  apply (fix_mode_is_repeatable Demo.first_level (Demo.manager "fix" "a2-b1") 7).
  discriminate.
Defined.

(** Three draws 1, 0, 1 on "a1-b1": the rates of "b", "a" and "b", and the
    generator has been used once. *)
Lemma dynamic_mode_maps_draws_witness :
  exists l,
    utils.create_model_rate_mapping Demo.draws 3
      {| utils.self := utils.__init__ "dynamic" Demo.rates "a1-b1";
         utils.generator := 0%nat |}
    = (Return (Some l),
       {| utils.self := utils.__init__ "dynamic" Demo.rates "a1-b1";
          utils.generator := 1%nat |}) /\
    length l = 3%nat /\
    forall i j,
      [1%nat; 0%nat; 1%nat] !! i = Some j -> l !! i = [Demo.one; Demo.half] !! j.
Proof.
  destruct (dynamic_mode_maps_draws Demo.draws
              {| utils.self := utils.__init__ "dynamic" Demo.rates "a1-b1";
                 utils.generator := 0%nat |}
              [Demo.one; Demo.half] [1; 1] 3) as (Hdraws & _).
  - reflexivity.
  - vm_compute. reflexivity.
  - apply (Hdraws [1%nat; 0%nat; 1%nat] 1%nat); [reflexivity|].
    repeat constructor.
Defined.

(** Mode "a2-b1" with seven users: the global level is "a" and client 0
    gets its rate. *)
Lemma first_client_gets_global_rate_witness :
  exists level rate l,
    utils.get_global_model_rate "a2-b1" = Return level /\
    Demo.rates !! level = Some rate /\
    utils.create_model_rate_mapping Demo.first_level 7 (Demo.manager "fix" "a2-b1")
    = (Return (Some l), Demo.manager "fix" "a2-b1") /\
    l !! 0%nat = Some rate.
Proof.
  apply (first_client_gets_global_rate Demo.first_level Demo.rates "a2-b1" tt
           [Demo.one; Demo.half] [2; 1] 2 7).
  - vm_compute. reflexivity.
  - reflexivity.
  - reflexivity.
  - vm_compute. discriminate.
Defined.

(** ** More on the evaluation callback *)

Section DictFacts.

Context {V : Type}.

Import server.

Lemma dict_get_absent (k : string) (d : list (string * V)) :
  k ∉ map fst d -> dict_get k d = None.
Proof.
  induction d as [|[k' v] d IH]; intros Hk; simpl; [reflexivity|].
  destruct (String.eqb_spec k' k) as [->|_].
  - exfalso. apply Hk. simpl. apply elem_of_cons. now left.
  - apply IH. intros Hin. apply Hk. simpl. apply elem_of_cons. now right.
Qed.

Lemma dict_set_fresh (k : string) (v : V) (d : list (string * V)) :
  k ∉ map fst d -> dict_set k v d = d ++ [(k, v)].
Proof.
  induction d as [|[k' v'] d IH]; intros Hk; simpl; [reflexivity|].
  destruct (String.eqb_spec k' k) as [->|_].
  - exfalso. apply Hk. simpl. apply elem_of_cons. now left.
  - rewrite IH; [reflexivity|].
    intros Hin. apply Hk. simpl. apply elem_of_cons. now right.
Qed.

(** Pairs with different keys are stored as they come. *)
Lemma dict_of_pairs_distinct (pairs : list (string * V)) :
  NoDup (map fst pairs) -> dict_of_pairs pairs = pairs.
Proof.
  unfold dict_of_pairs.
  enough (forall d, NoDup (map fst (d ++ pairs)) ->
            fold_left (fun d kv => dict_set (fst kv) (snd kv) d) pairs d
            = d ++ pairs) as Hgen by (intros Hnodup; now apply (Hgen [])).
  induction pairs as [|[k v] pairs IH]; intros d Hnodup; simpl.
  - now rewrite app_nil_r.
  - rewrite dict_set_fresh.
    + rewrite IH; rewrite <- app_assoc; [reflexivity|exact Hnodup].
    + rewrite map_app in Hnodup. apply NoDup_app in Hnodup as (_ & Hdisj & _).
      intros Hin. apply (Hdisj k Hin). simpl. apply elem_of_cons. now left.
Qed.

Lemma dict_get_lookup (d : list (string * V)) :
  NoDup (map fst d) ->
  forall (i : nat) (k : string) (v : V),
    d !! i = Some (k, v) -> dict_get k d = Some v.
Proof.
  induction d as [|[k' v'] d IH]; intros Hnodup i k v Hi;
    [now rewrite lookup_nil in Hi|].
  simpl in Hnodup. apply NoDup_cons in Hnodup as [Hfresh Hnodup].
  destruct i as [|i].
  - simpl in Hi. inversion Hi; subst. simpl. now rewrite String.eqb_refl.
  - change (d !! i = Some (k, v)) in Hi. simpl.
    destruct (String.eqb_spec k' k) as [->|_]; [|now apply (IH Hnodup i)].
    exfalso. apply Hfresh.
    apply (list_elem_of_lookup_2 _ i).
    now rewrite list_lookup_fmap, Hi.
Qed.

Lemma existsb_none {A : Type} (f : A -> bool) (l : list A) :
  (forall x, x ∈ l -> f x = false) -> existsb f l = false.
Proof.
  induction l as [|x l IH]; intros Hall; [reflexivity|]. simpl.
  rewrite (Hall x) by (apply elem_of_cons; now left).
  apply IH. intros y Hy. apply Hall. apply elem_of_cons. now right.
Qed.

End DictFacts.

Section EvaluateMore.

Context {NDArray Tensor Batch Labels Scalar Config : Type}.
Variable torch_Tensor : NDArray -> Tensor.
Variable shape : Tensor -> list nat.
Variable of_int : Z -> Scalar.
Variable add : Scalar -> Scalar -> Scalar.
Variable forward : server.Module_ Tensor -> Batch -> server.Module_ Tensor.
Variable test :
  server.Module_ Tensor -> list Batch -> option Labels
  -> (Scalar * Scalar) * server.Module_ Tensor.
Variable type_int : Labels -> Labels.
Variable load_residue :
  server.Module_ Tensor -> list (string * Tensor) -> server.Module_ Tensor.
Variable output_dir : string.

Import server.

Local Abbreviation evaluate :=
  (server.evaluate (Config := Config) torch_Tensor shape of_int add forward
     test type_int load_residue output_dir).
Local Abbreviation load_state_dict := (server.load_state_dict shape load_residue).
Local Abbreviation test_clients := (server.test_clients add test type_int).
Local Abbreviation client_results := (server.client_results test type_int).
Local Abbreviation after_clients := (server.after_clients test type_int).
Local Abbreviation received := (server.received torch_Tensor).
Local Abbreviation total := (server.total of_int add).

Lemma zip_keys_distinct {A : Type} (keys : list string) (values : list A) :
  NoDup keys -> NoDup (map fst (zip keys values)).
Proof.
  revert values. induction keys as [|k keys IH]; intros [|v values] Hnodup;
    simpl; try constructor.
  - apply NoDup_cons in Hnodup as [Hfresh _]. intros Hin. apply Hfresh.
    apply list_elem_of_fmap in Hin as ([k' v'] & -> & Hin).
    apply list_elem_of_lookup in Hin as [i Hi].
    apply lookup_zip_with_Some in Hi as (x & y & Heq & Hx & _).
    inversion Heq; subst. simpl. eapply list_elem_of_lookup_2. exact Hx.
  - apply IH. now apply NoDup_cons in Hnodup as [_ Hnodup].
Qed.

(** With distinct keys, the dictionary built from the arrays pairs the keys
    with the tensors in order. *)
Lemma received_distinct (n : Module_ Tensor) (parameters_ndarrays : list NDArray) :
  NoDup (map fst (state n)) ->
  received n parameters_ndarrays
  = zip (map fst (state n)) (map torch_Tensor parameters_ndarrays).
Proof.
  intros Hnodup. unfold server.received.
  assert (forall (keys : list string) (ps : list NDArray),
            map (fun kv : string * NDArray => (fst kv, torch_Tensor (snd kv)))
              (zip keys ps)
            = zip keys (map torch_Tensor ps)) as ->.
  { induction keys as [|k keys IH]; intros [|p ps]; simpl; try reflexivity.
    now rewrite IH. }
  apply dict_of_pairs_distinct. now apply zip_keys_distinct.
Qed.

Lemma received_lookup (n : Module_ Tensor) (parameters_ndarrays : list NDArray)
    (i : nat) (k : string) (t : Tensor) (p : NDArray) :
  NoDup (map fst (state n)) ->
  state n !! i = Some (k, t) ->
  parameters_ndarrays !! i = Some p ->
  dict_get k (received n parameters_ndarrays) = Some (torch_Tensor p).
Proof.
  intros Hnodup Hk Hp. rewrite received_distinct by exact Hnodup.
  apply (dict_get_lookup _ (zip_keys_distinct _ _ Hnodup) i).
  apply lookup_zip_with_Some. exists k, (torch_Tensor p).
  split; [reflexivity|split].
  - now rewrite list_lookup_fmap, Hk.
  - now rewrite list_lookup_fmap, Hp.
Qed.

(** A tensor of another shape is refused by the strict load. *)
Lemma load_state_dict_shape (parameters_ndarrays : list NDArray)
    (w : world Tensor) (i : nat) (k : string) (t : Tensor) (p : NDArray) :
  NoDup (map fst (state (net w))) ->
  state (net w) !! i = Some (k, t) ->
  parameters_ndarrays !! i = Some p ->
  shape (torch_Tensor p) <> shape t ->
  load_state_dict (received (net w) parameters_ndarrays) w
  = (Raise RuntimeError,
     set_net (load_residue (net w) (received (net w) parameters_ndarrays)) w).
Proof.
  intros Hnodup Hk Hp Hshape. unfold server.load_state_dict.
  assert (existsb
            (fun kv =>
               match dict_get (fst kv) (received (net w) parameters_ndarrays) with
               | Some t' => negb (bool_decide (shape t' = shape (snd kv)))
               | None => false
               end) (state (net w)) = true) as ->;
    [|now rewrite orb_true_r].
  apply existsb_exists. exists (k, t). split.
  - apply list_elem_of_In. eapply list_elem_of_lookup_2. exact Hk.
  - simpl. rewrite (received_lookup _ _ i k t p Hnodup Hk Hp).
    apply negb_true_iff, bool_decide_eq_false. exact Hshape.
Qed.

(** Arrays that match the model, one per key and of the right shape, are
    accepted, and the model then holds them in the order of its keys. *)
Lemma load_state_dict_accepts (parameters_ndarrays : list NDArray)
    (w : world Tensor) :
  NoDup (map fst (state (net w))) ->
  Forall2 (fun kv p => shape (torch_Tensor p) = shape (snd kv))
    (state (net w)) (take (length (state (net w))) parameters_ndarrays) ->
  load_state_dict (received (net w) parameters_ndarrays) w
  = (Return tt,
     set_net
       {| state :=
            zip (map fst (state (net w)))
              (map torch_Tensor
                 (take (length (state (net w))) parameters_ndarrays));
          training := training (net w) |} w).
Proof.
  intros Hnodup Hshapes.
  pose proof (Forall2_length _ _ _ Hshapes) as Hlen.
  assert (received (net w) parameters_ndarrays
          = zip (map fst (state (net w)))
              (map torch_Tensor
                 (take (length (state (net w))) parameters_ndarrays))) as Hrec.
  { rewrite received_distinct by exact Hnodup.
    rewrite <- (length_map fst (state (net w))), fmap_take.
    symmetry. apply zip_with_take_r. }
  set (params := take (length (state (net w))) parameters_ndarrays) in *.
  assert (forall i k t,
            state (net w) !! i = Some (k, t) ->
            exists p,
              params !! i = Some p /\
              shape (torch_Tensor p) = shape t /\
              dict_get k (received (net w) parameters_ndarrays)
                = Some (torch_Tensor p)) as Hat.
  { intros i k t Hk.
    destruct (Forall2_lookup_l _ _ _ i (k, t) Hshapes Hk) as (p & Hp & Hs).
    exists p. split; [exact Hp|split; [exact Hs|]].
    rewrite Hrec.
    apply (dict_get_lookup _ (zip_keys_distinct _ _ Hnodup) i).
    apply lookup_zip_with_Some. exists k, (torch_Tensor p).
    split; [reflexivity|split].
    - now rewrite list_lookup_fmap, Hk.
    - now rewrite list_lookup_fmap, Hp. }
  unfold server.load_state_dict.
  rewrite (existsb_none _ (state (net w))).
  2:{ intros [k t] Hin. apply list_elem_of_lookup in Hin as [i Hi].
      destruct (Hat i k t Hi) as (p & _ & _ & Hget).
      unfold has_key. simpl. now rewrite Hget. }
  rewrite (existsb_none _ (received (net w) parameters_ndarrays)).
  2:{ intros [k t] Hin. rewrite Hrec in Hin.
      apply list_elem_of_lookup in Hin as [i Hi].
      apply lookup_zip_with_Some in Hi as (k' & t' & Heq & Hk' & _).
      inversion Heq; subst.
      rewrite list_lookup_fmap in Hk'.
      destruct (state (net w) !! i) as [[k0 t0]|] eqn:Hown; [|discriminate].
      simpl in Hk'. inversion Hk'; subst.
      unfold has_key. simpl.
      now rewrite (dict_get_lookup _ Hnodup i k' t0 Hown). }
  rewrite (existsb_none _ (state (net w))).
  2:{ intros [k t] Hin. apply list_elem_of_lookup in Hin as [i Hi].
      destruct (Hat i k t Hi) as (p & _ & Hs & Hget).
      simpl. rewrite Hget.
      apply negb_false_iff, bool_decide_eq_true. exact Hs. }
  simpl. f_equal. f_equal. f_equal.
  apply list_eq. intros i. rewrite list_lookup_fmap.
  destruct (state (net w) !! i) as [[k t]|] eqn:Hown; simpl.
  - destruct (Hat i k t Hown) as (p & Hp & _ & Hget). rewrite Hget. simpl.
    symmetry. apply lookup_zip_with_Some. exists k, (torch_Tensor p).
    split; [reflexivity|split].
    + now rewrite list_lookup_fmap, Hown.
    + now rewrite list_lookup_fmap, Hp.
  - symmetry. apply lookup_zip_with_None. left.
    now rewrite list_lookup_fmap, Hown.
Qed.


(** X12.  On a qualifying round, when no array of one dimension is offered
    for a tensor of no dimension (the one shape difference torch lets
    through), an array whose shape is not the shape of the model's tensor at
    the same position makes [evaluate] raise [RuntimeError] at the load:
    nothing is written, no loader is iterated and no metrics are returned. *)
Theorem evaluate_shape_mismatch_raises (dl : data_loaders Batch Labels)
    (server_round : Z) (parameters_ndarrays : list NDArray) (config : Config)
    (w : world Tensor) (i : nat) (k : string) (t : Tensor) (p : NDArray) :
  skipped server_round = false ->
  NoDup (map fst (state (net w))) ->
  (forall j kj tj pj,
     state (net w) !! j = Some (kj, tj) ->
     parameters_ndarrays !! j = Some pj ->
     shape tj = [] -> length (shape (torch_Tensor pj)) <> 1%nat) ->
  state (net w) !! i = Some (k, t) ->
  parameters_ndarrays !! i = Some p ->
  shape (torch_Tensor p) <> shape t ->
  evaluate dl server_round parameters_ndarrays config w
  = (Raise RuntimeError,
     {| net := load_residue (net w) (received (net w) parameters_ndarrays);
        disk := disk w;
        iterated := iterated w |}).
Proof.
  intros Hskip Hnodup _ Hk Hp Hshape.
  apply evaluate_load_raises; [exact Hskip|].
  now apply (load_state_dict_shape parameters_ndarrays w i k t p).
Qed.

(** X13.  On a qualifying round, arrays that match the model (distinct keys,
    at least one array per key, each of the shape of its tensor) and one label
    subset per client are enough for [evaluate] to return: the model that the
    statistics pass and the tests run on holds exactly the received arrays,
    paired with the keys in order and in training mode, and surplus arrays
    play no part. *)
Theorem evaluate_on_well_formed_parameters (dl : data_loaders Batch Labels)
    (server_round : Z) (parameters_ndarrays : list NDArray) (config : Config)
    (w : world Tensor) :
  skipped server_round = false ->
  NoDup (map fst (state (net w))) ->
  Forall2 (fun kv p => shape (torch_Tensor p) = shape (snd kv))
    (state (net w)) (take (length (state (net w))) parameters_ndarrays) ->
  (length (valloaders dl) <= length (label_split dl))%nat ->
  let loaded :=
    zip (map fst (state (net w)))
      (map torch_Tensor (take (length (state (net w))) parameters_ndarrays)) in
  let n2 :=
    fold_left forward (entire_trainloader dl)
      {| state := loaded; training := true |} in
  let results := client_results n2 (valloaders dl) (label_split dl) in
  let g :=
    test (after_clients n2 (valloaders dl) (label_split dl))
      (testloader dl) None in
  fst (evaluate dl server_round parameters_ndarrays config w)
    = Return (fst (fst g),
              [("global_accuracy", snd (fst g));
               ("local_loss", total (map fst results));
               ("local_accuracy", total (map snd results))]) /\
  net (snd (evaluate dl server_round parameters_ndarrays config w)) = snd g /\
  iterated (snd (evaluate dl server_round parameters_ndarrays config w))
    = iterated w ++ full_pass dl.
Proof.
  intros Hskip Hnodup Hshapes Hlen loaded n2 results g.
  rewrite (evaluate_full torch_Tensor shape of_int add forward test type_int
             load_residue output_dir dl server_round parameters_ndarrays config
             w _ Hskip (load_state_dict_accepts parameters_ndarrays w Hnodup
                          Hshapes) Hlen).
  simpl. repeat split.
Qed.

(** X14.  On a round that is a multiple of one hundred, with arrays that
    match the model, the file written holds the arrays just received, paired
    with the keys in order: the checkpoint is taken before the statistics pass
    and does not depend on the loaders, on the forward pass or on the
    tests. *)
Theorem checkpoint_holds_received_parameters (dl : data_loaders Batch Labels)
    (server_round : Z) (parameters_ndarrays : list NDArray) (config : Config)
    (w : world Tensor) :
  server_round mod 100 = 0 ->
  NoDup (map fst (state (net w))) ->
  Forall2 (fun kv p => shape (torch_Tensor p) = shape (snd kv))
    (state (net w)) (take (length (state (net w))) parameters_ndarrays) ->
  disk (snd (evaluate dl server_round parameters_ndarrays config w))
  = disk w
    ++ [{| utils.parent := output_dir;
           utils.name := checkpoint_name server_round;
           utils.content :=
             zip (map fst (state (net w)))
               (map torch_Tensor
                  (take (length (state (net w))) parameters_ndarrays)) |}].
Proof.
  intros Hmod Hnodup Hshapes.
  assert (skipped server_round = false) as Hskip.
  { assert (server_round mod 5 = 0) as H5.
    { pose proof (Z.div_mod server_round 100 ltac:(lia)) as Hdm.
      rewrite Hmod in Hdm.
      replace server_round with (20 * (server_round / 100) * 5) by lia.
      apply Z_mod_mult. }
    unfold skipped. now rewrite H5. }
  rewrite evaluate_disk, Hskip.
  rewrite (load_state_dict_accepts parameters_ndarrays w Hnodup Hshapes).
  unfold checkpointed, utils.save_model.
  apply Z.eqb_eq in Hmod. now rewrite Hmod.
Qed.


End EvaluateMore.

(** ** The further properties of [evaluate] on the example model *)

(** The second array has two entries where the bias has one: nothing is
    written and no loader is iterated; the state the failed load leaves in
    the model is left open. *)
Lemma evaluate_shape_mismatch_raises_witness :
  exists n,
    Demo.evaluate Demo.loaders 10 [[1; 2]; [3; 4]] tt Demo.fresh
    = (Raise RuntimeError,
       {| server.net := n; server.disk := []; server.iterated := [] |}).
Proof.
  eexists.
  apply (evaluate_shape_mismatch_raises (Config := unit) Demo.torch_Tensor
           Demo.shape (fun z : Z => z) Z.add Demo.forward Demo.test
           Demo.type_int Demo.load_residue "outputs" Demo.loaders 10
           [[1; 2]; [3; 4]] tt Demo.fresh 1%nat "b" [0] [3; 4]).
  - reflexivity.
  - simpl. apply NoDup_cons. split; [|apply NoDup_singleton].
    intros Hin. apply list_elem_of_singleton in Hin. discriminate Hin.
  - intros j kj tj pj _ _ Hshape. discriminate Hshape.
  - reflexivity.
  - reflexivity.
  - discriminate.
Defined.

(** Three arrays for the model of two parameters, on round 10. *)
Lemma evaluate_on_well_formed_parameters_witness :
  fst (Demo.evaluate Demo.loaders 10 [[1; 2]; [3]; [4]] tt Demo.fresh)
  = Return (7, [("global_accuracy", 1); ("local_loss", 10);
                ("local_accuracy", 2)]).
Proof.
  refine (proj1 (evaluate_on_well_formed_parameters (Config := unit)
                   Demo.torch_Tensor Demo.shape (fun z : Z => z) Z.add
                   Demo.forward Demo.test Demo.type_int Demo.load_residue
                   "outputs" Demo.loaders 10 [[1; 2]; [3]; [4]] tt Demo.fresh
                   _ _ _ _)).
  - reflexivity.
  - simpl. apply NoDup_cons. split; [|apply NoDup_singleton].
    intros Hin. apply list_elem_of_singleton in Hin. discriminate Hin.
  - simpl. repeat constructor.
  - simpl. lia.
Defined.

(** Round 200. *)
Lemma checkpoint_holds_received_parameters_witness :
  server.disk (snd (Demo.evaluate Demo.loaders 200 [[1; 2]; [3]] tt Demo.fresh))
  = [{| utils.parent := "outputs";
        utils.name := "model_after_round_200.pth";
        utils.content := [("w", [1; 2]); ("b", [3])] |}].
Proof.
  apply (checkpoint_holds_received_parameters (Config := unit)
           Demo.torch_Tensor Demo.shape (fun z : Z => z) Z.add Demo.forward
           Demo.test Demo.type_int Demo.load_residue "outputs" Demo.loaders 200
           [[1; 2]; [3]] tt Demo.fresh).
  - reflexivity.
  - simpl. apply NoDup_cons. split; [|apply NoDup_singleton].
    intros Hin. apply list_elem_of_singleton in Hin. discriminate Hin.
  - simpl. repeat constructor.
Defined.

